(** * faust: the base transport (Consumer) and the changelog Table

    A shallow embedding of [faust/transport/base.py] and [faust/tables.py].
    Python integers are [Z], lists are [list], the dict behind a Table is a
    [gmap], an attribute that may hold [None] is an [option], and a call
    that may raise returns a [result]. *)

From Stdlib Require Import ZArith QArith Lia.
From stdpp Require Import base tactics option list sorting numbers strings gmap.

Local Open Scope Z_scope.

(** ** Exceptions and fallible calls *)

(** The exception classes the two modules raise or let through, all of
    them subclasses of [Exception].  [KeyDecodeError] and
    [ValueDecodeError] wrap the exception that caused them, as in
    [raise KeyDecodeError(exc)]; [OtherError] stands for whatever a codec,
    a callback or the backend raises.  [assert] statements are executed
    (the interpreter does not run with [-O]). *)
Inductive exn : Type :=
  | AssertionError
  | TypeError
  | IndexError
  | KeyError
  | AttributeError
  | UnboundLocalError
  | KeyDecodeError (cause : exn)
  | ValueDecodeError (cause : exn)
  | OtherError (name : string).

Inductive result (A : Type) : Type :=
  | Ok (a : A)
  | Raise (e : exn).
Arguments Ok {A} a.
Arguments Raise {A} e.

#[global] Instance result_ret : MRet result := fun A a => Ok a.
#[global] Instance result_bind : MBind result := fun A B f m =>
  match m with
  | Ok a => f a
  | Raise e => Raise e
  end.

(** Python truthiness of the values the constructor tests. *)
Definition truthy_str (s : option string) : bool :=
  match s with
  | Some s => negb (String.eqb s "")
  | None => false
  end.

Definition truthy_seq {A} (l : list A) : bool :=
  match l with
  | [] => false
  | _ :: _ => true
  end.

Definition truthy_opt {A} (o : option A) : bool :=
  match o with
  | Some _ => true
  | None => false
  end.

Definition truthy_float (q : option Q) : bool :=
  match q with
  | Some q => negb (Qeq_bool q 0)
  | None => false
  end.

(** [a or b] on optional strings. *)
Definition or_str (a b : option string) : option string :=
  if truthy_str a then a else b.

(** ** Lists

    Indexing, [l[i]]: negative indices count from the end, out of range
    raises [IndexError]. *)
Definition py_getitem (l : list Z) (i : Z) : result Z :=
  let n := Z.of_nat (length l) in
  let j := if i <? 0 then i + n else i in
  if (j <? 0) || (n <=? j) then Raise IndexError
  else match l !! Z.to_nat j with
       | Some x => Ok x
       | None => Raise IndexError
       end.

(** [list.sort()] on integers. *)
Definition py_sort (l : list Z) : list Z := merge_sort Z.le l.

(** Python [bytes]. *)
Definition bytes : Type := list Byte.byte.

(** * faust/transport/base.py *)
Module Transport.

Section Model.
(** The key and value types of the application ([K] and [Event] in
    [faust.types]). *)
Context {K V : Type}.

(** [typing.cast(K, key)]: the raw key taken as a key, unchanged. *)
Variable cast : bytes -> K.

(** [faust.codecs.loads(serializer, data)]. *)
Variable loads : string -> bytes -> result K.

(** Modelled from the spec: [Message] of [faust.types], "immutable tuple of
    {topic, offset, raw key bytes, raw value bytes}". *)
Record Message : Type := {
  msg_topic : string;
  msg_key : bytes;
  msg_value : bytes;
  msg_offset : Z;
}.

(** Modelled from the spec: the application handle of [faust.types.AppT],
    with the three defaults the constructor reads from it. *)
Record App : Type := {
  app_key_serializer : option string;
  app_value_serializer : option string;
  app_commit_interval : Q;
}.

(** The value type of a topic, [topic.type], with its decoder
    [from_message(k, message, app, default_serializer=...)]. *)
Record ValueType : Type := {
  from_message : K -> Message -> App -> option string -> result V;
}.

(** Modelled from the spec: [Topic] of [faust.types], "{topics: set of
    names, pattern: optional matcher, type: application value type,
    key_serializer: optional codec id}". *)
Record Topic : Type := {
  topic_topics : list string;
  topic_pattern : option string;
  topic_type : ValueType;
  topic_key_serializer : option string;
}.

(** [Transport]: [url], [app] and the event loop handle. *)
Record TransportT : Type := {
  url : string;
  app : App;
  loop : option nat;
}.

(** [EventRef]: a weak reference to the event that remembers its offset. *)
Record EventRef : Type := {
  ref_event : V;
  ref_offset : Z;
}.

Definition ConsumerCallback : Type := Topic -> K -> V -> result unit.
Definition KeyDecodeErrorCallback : Type := exn -> Message -> result unit.
Definition ValueDecodeErrorCallback : Type := exn -> Message -> result unit.

(** What a method of the consumer does to the world outside it, in the
    order it does it: it awaits one of the application's three callables,
    or it calls the backend.  The only backend operation [base.py] calls
    is [self._commit(offset)], which the concrete transport supplies. *)
Inductive effect : Type :=
  | CallKeyDecodeError (exc : exn) (message : Message)
  | CallValueDecodeError (exc : exn) (message : Message)
  | CallCallback (t : Topic) (k : K) (v : V)
  | BackendCommit (offset : Z).

(** The offsets the backend's commit was called with, oldest first. *)
Fixpoint commits (tr : list effect) : list Z :=
  match tr with
  | [] => []
  | BackendCommit o :: tr' => o :: commits tr'
  | _ :: tr' => commits tr'
  end.

Record Consumer : Type := {
  consumer_id : nat;
  transport : TransportT;
  _app : App;
  callback : ConsumerCallback;
  topic : Topic;
  type : ValueType;
  on_key_decode_error : option KeyDecodeErrorCallback;
  on_value_decode_error : option ValueDecodeErrorCallback;
  _key_serializer : option string;
  _value_serializer : option string;
  commit_interval : Q;
  _dirty_events : list EventRef;
  _acked : list Z;
  _current_offset : option Z;
  service_loop : option nat;
}.

Definition set_acked (self : Consumer) (acked : list Z) : Consumer :=
  {| consumer_id := consumer_id self; transport := transport self;
     _app := _app self; callback := callback self; topic := topic self;
     type := type self; on_key_decode_error := on_key_decode_error self;
     on_value_decode_error := on_value_decode_error self;
     _key_serializer := _key_serializer self;
     _value_serializer := _value_serializer self;
     commit_interval := commit_interval self;
     _dirty_events := _dirty_events self;
     _acked := acked;
     _current_offset := _current_offset self;
     service_loop := service_loop self |}.

Definition set_current_offset (self : Consumer) (o : option Z) : Consumer :=
  {| consumer_id := consumer_id self; transport := transport self;
     _app := _app self; callback := callback self; topic := topic self;
     type := type self; on_key_decode_error := on_key_decode_error self;
     on_value_decode_error := on_value_decode_error self;
     _key_serializer := _key_serializer self;
     _value_serializer := _value_serializer self;
     commit_interval := commit_interval self;
     _dirty_events := _dirty_events self;
     _acked := _acked self;
     _current_offset := o;
     service_loop := service_loop self |}.

Definition set_dirty_events (self : Consumer) (d : list EventRef) : Consumer :=
  {| consumer_id := consumer_id self; transport := transport self;
     _app := _app self; callback := callback self; topic := topic self;
     type := type self; on_key_decode_error := on_key_decode_error self;
     on_value_decode_error := on_value_decode_error self;
     _key_serializer := _key_serializer self;
     _value_serializer := _value_serializer self;
     commit_interval := commit_interval self;
     _dirty_events := d;
     _acked := _acked self;
     _current_offset := _current_offset self;
     service_loop := service_loop self |}.

(** [Consumer.__init__].  [Service.__init__] ([faust/utils/services.py])
    is taken to keep the loop it is given.  [ids] is the class-level counter
    [_consumer_ids = count(0)]; the constructor returns the counter it
    leaves behind, what it did to the world outside (nothing: no line of
    it calls a callback or the backend), and either the new consumer or
    the exception raised.
    [assert callback is not None] comes first, [next(self._consumer_ids)]
    second, the check on [topics] and [pattern] after the attributes are
    read, and [super().__init__(loop=...)] last. *)
Definition __init__ (ids : nat) (transport : TransportT)
    (topic : option Topic) (callback : option ConsumerCallback)
    (on_key_decode_error : option KeyDecodeErrorCallback)
    (on_value_decode_error : option ValueDecodeErrorCallback)
    (commit_interval : option Q) : nat * list effect * result Consumer :=
  match callback with
  | None => (ids, [], Raise AssertionError)
  | Some cb =>
      let ids' := S ids in
      match topic with
      | None => (ids', [], Raise AttributeError)
      | Some tp =>
          if truthy_seq (topic_topics tp) && truthy_opt (topic_pattern tp)
          then (ids', [], Raise TypeError)
          else
            (ids', [],
             Ok {| consumer_id := ids;
                   transport := transport;
                   _app := app transport;
                   callback := cb;
                   topic := tp;
                   type := topic_type tp;
                   on_key_decode_error := on_key_decode_error;
                   on_value_decode_error := on_value_decode_error;
                   _key_serializer :=
                     or_str (topic_key_serializer tp)
                            (app_key_serializer (app transport));
                   _value_serializer := app_value_serializer (app transport);
                   commit_interval :=
                     match commit_interval with
                     | Some q => if truthy_float (Some q) then q
                                 else app_commit_interval (app transport)
                     | None => app_commit_interval (app transport)
                     end;
                   _dirty_events := [];
                   _acked := [];
                   _current_offset := None;
                   service_loop := loop transport |})
      end
  end.

(** [Transport.create_consumer]: the constructor with [topic] and
    [callback] given. *)
Definition create_consumer (ids : nat) (self : TransportT) (topic : Topic)
    (callback : ConsumerCallback)
    (on_key_decode_error : option KeyDecodeErrorCallback)
    (on_value_decode_error : option ValueDecodeErrorCallback)
    (commit_interval : option Q) : nat * list effect * result Consumer :=
  __init__ ids self (Some topic) (Some callback) on_key_decode_error
           on_value_decode_error commit_interval.

(** *** The receive path *)

(** [to_KV]: decode the key when a key serializer is set, then the value;
    whatever either decoder raises is wrapped. *)
Definition to_KV (self : Consumer) (message : Message) : result (K * V) :=
  k ← match _key_serializer self with
      | Some ser =>
          if truthy_str (Some ser)
          then match loads ser (msg_key message) with
               | Ok key => Ok key
               | Raise exc => Raise (KeyDecodeError exc)
               end
          else Ok (cast (msg_key message))
      | None => Ok (cast (msg_key message))
      end;
  match from_message (type self) k message (_app self)
          (_value_serializer self) with
  | Ok v => Ok (k, v)
  | Raise exc => Raise (ValueDecodeError exc)
  end.

(** [track_event]: remember a weak reference to the event. *)
Definition track_event (self : Consumer) (event : V) (offset : Z) : Consumer :=
  set_dirty_events self
    (_dirty_events self ++ [{| ref_event := event; ref_offset := offset |}]).

(** The [try] statement of [on_message].  It leaves the locals [k] and
    [v] bound ([Some]) when [to_KV] returned, and unbound ([None]) when
    a decode error was handed to its handler and the handler returned. *)
Definition on_message_try (self : Consumer) (message : Message)
    : list effect * result (option (K * V)) :=
  match to_KV self message with
  | Ok kv => ([], Ok (Some kv))
  | Raise (KeyDecodeError cause) =>
      let exc := KeyDecodeError cause in
      match on_key_decode_error self with
      | None => ([], Raise exc)
      | Some handler =>
          ([CallKeyDecodeError exc message],
           match handler exc message with
           | Ok _ => Ok None
           | Raise e => Raise e
           end)
      end
  | Raise (ValueDecodeError cause) =>
      let exc := ValueDecodeError cause in
      match on_value_decode_error self with
      | None => ([], Raise exc)
      | Some handler =>
          ([CallValueDecodeError exc message],
           match handler exc message with
           | Ok _ => Ok None
           | Raise e => Raise e
           end)
      end
  | Raise e => ([], Raise e)
  end.

(** [on_message]: the [try] statement, then
    [self.track_event(v, message.offset)] and
    [await self.callback(self.topic, k, v)], which read [v] and [k]:
    reading an unbound local raises [UnboundLocalError]. *)
Definition on_message (self : Consumer) (message : Message)
    : Consumer * list effect * result unit :=
  match on_message_try self message with
  | (tr, Raise e) => (self, tr, Raise e)
  | (tr, Ok None) => (self, tr, Raise UnboundLocalError)
  | (tr, Ok (Some (k, v))) =>
      (track_event self v (msg_offset message),
       tr ++ [CallCallback (topic self) k v],
       callback self (topic self) k v)
  end.

(** *** Acknowledgement *)

(** [on_event_ready]: the weak reference's callback, run when the event
    goes out of scope: append the offset, then sort. *)
Definition on_event_ready (self : Consumer) (ref : EventRef) : Consumer :=
  set_acked self (py_sort (_acked self ++ [ref_offset ref])).

(** The consumer after the events behind [refs] went out of scope, one
    after the other. *)
Definition acknowledge (self : Consumer) (refs : list EventRef) : Consumer :=
  fold_left on_event_ready refs self.

(** *** The commit path *)

(** The [for i, offset in enumerate(acked)] loop of [_new_offset], from
    index [i] on, [rest] being the entries not yet visited.  Leaving the
    loop without [break] runs the [else] clause, which raises. *)
Fixpoint _new_offset_loop (acked : list Z) (i : Z) (rest : list Z) : result Z :=
  match rest with
  | [] => Raise IndexError
  | offset :: rest' =>
      match py_getitem acked (i - 1) with
      | Raise e => Raise e
      | Ok prev =>
          if negb (offset =? prev) then Ok offset
          else _new_offset_loop acked (i + 1) rest'
      end
  end.

Definition _new_offset (self : Consumer) : result Z :=
  _new_offset_loop (_acked self) 0 (_acked self).

(** [_should_commit]:
    [self._current_offset is None or (offset and offset > self._current_offset)]
    read as a condition. *)
Definition _should_commit (self : Consumer) (offset : Z) : bool :=
  match _current_offset self with
  | None => true
  | Some cur => negb (offset =? 0) && (cur <? offset)
  end.

(** One pass through the body of [while 1] in [_commit_handler].
    [backend] is what the transport's [_commit(offset)] does if it is
    called on this pass.  The result is the consumer afterwards, the
    calls made, and [Raise e] when an exception leaves the loop body
    (and so [_commit_handler], which has no handler around the loop). *)
Definition _commit_handler_tick (self : Consumer) (backend : result unit)
    : Consumer * list effect * result unit :=
  match _new_offset self with
  | Raise IndexError => (self, [], Ok tt)
  | Raise e => (self, [], Raise e)
  | Ok offset =>
      if _should_commit self offset
      then (set_current_offset self (Some offset),
            [BackendCommit offset], backend)
      else (self, [], Ok tt)
  end.

(** The commit loop as a task of the event loop: it is either still
    looping or has ended with the exception that left [_commit_handler]. *)
Inductive task : Type :=
  | Looping
  | Ended (e : exn).

(** A running consumer: the object, its commit task, and what the
    consumer has done to the world so far, oldest first. *)
Record System : Type := {
  consumer : Consumer;
  commit_task : task;
  trace : list effect;
}.

(** What happens to a running consumer: the transport hands it a message,
    an event goes out of scope, or the commit loop wakes up (with the
    backend's answer, should it be asked). *)
Inductive step : Type :=
  | Received (message : Message)
  | Acked (ref : EventRef)
  | Tick (backend : result unit).

(** One such step.  What [on_message] raises goes to its caller, the
    concrete transport's receive loop, and leaves the commit task alone; an
    acknowledgement may name any offset; a wake-up of a commit task that
    has ended does nothing. *)
Definition sys_step (s : System) (st : step) : System :=
  match st with
  | Received message =>
      let '(c, called, _) := on_message (consumer s) message in
      {| consumer := c;
         commit_task := commit_task s;
         trace := trace s ++ called |}
  | Acked ref =>
      {| consumer := on_event_ready (consumer s) ref;
         commit_task := commit_task s;
         trace := trace s |}
  | Tick backend =>
      match commit_task s with
      | Ended _ => s
      | Looping =>
          let '(c, called, r) := _commit_handler_tick (consumer s) backend in
          {| consumer := c;
             commit_task := match r with
                            | Ok _ => Looping
                            | Raise e => Ended e
                            end;
             trace := trace s ++ called |}
      end
  end.

Definition run (s : System) (sched : list step) : System :=
  fold_left sys_step sched s.

(** A consumer just started: [register_timers] has scheduled the loop. *)
Definition start (c : Consumer) : System :=
  {| consumer := c; commit_task := Looping; trace := [] |}.

(** What the loop keeps true: the offsets committed so far increase
    strictly, [_current_offset] is the last of them ([None] before the
    first), and the acknowledged list is ascending. *)
Definition loop_invariant (s : System) : Prop :=
  StronglySorted Z.lt (commits (trace s))
  /\ _current_offset (consumer s) = last (commits (trace s))
  /\ StronglySorted Z.le (_acked (consumer s)).

End Model.

End Transport.

(** * faust/tables.py *)
Module Tables.

Section Model.
Context `{Countable K} {V Coro : Type}.

(** What [Table] inherits from [Stream] ([faust/streams.py]): the
    generator callbacks registered on the stream, [_coroutines], and the
    processing step [process(key, value)]. *)
Record Stream : Type := {
  _coroutines : list Coro;
  process : K -> V -> result V;
}.

(** A table after [on_init]: the stream it is, and [_state]. *)
Record Table : Type := {
  stream : Stream;
  _state : gmap K V;
}.

Definition set_state (self : Table) (m : gmap K V) : Table :=
  {| stream := stream self; _state := m |}.

(** [on_init]: [assert not self._coroutines], then [self._state = {}]. *)
Definition on_init (s : Stream) : result Table :=
  if truthy_seq (_coroutines s) then Raise AssertionError
  else Ok {| stream := s; _state := ∅ |}.

(** [on_message]: [self._state[key] = await self.process(key, value)]. *)
Definition on_message (self : Table) (topic : Transport.Topic (K:=K) (V:=V))
    (key : K) (value : V) : result Table :=
  processed ← process (stream self) key value;
  Ok (set_state self (<[key := processed]> (_state self))).

(** [__getitem__]: [return self._state[key]]. *)
Definition __getitem__ (self : Table) (key : K) : result V :=
  match _state self !! key with
  | Some v => Ok v
  | None => Raise KeyError
  end.

(** [__setitem__]: [self._state[key] = value]. *)
Definition __setitem__ (self : Table) (key : K) (value : V) : Table :=
  set_state self (<[key := value]> (_state self)).

(** [__delitem__]: [del self._state[key]]. *)
Definition __delitem__ (self : Table) (key : K) : result Table :=
  match _state self !! key with
  | Some _ => Ok (set_state self (delete key (_state self)))
  | None => Raise KeyError
  end.

End Model.

Arguments Stream K V Coro : clear implicits.
Arguments Table K {_ _} V Coro.

End Tables.

(** * The tracker's [next_safe_offset()] as the specification words it

    "Treat the acknowledged set as an ascending sequence (duplicates
    collapsed).  Starting from the first entry, walk forward while each
    entry is either equal to or exactly one greater than the previous
    entry; the last entry reached before a gap (or the end of the
    sequence) is the safe offset."  This is the reference the source's
    [_new_offset] is compared with; nothing of the source goes through it. *)
Fixpoint walk_forward (prev : Z) (rest : list Z) : Z :=
  match rest with
  | [] => prev
  | x :: rest' =>
      if (x =? prev) || (x =? prev + 1) then walk_forward x rest' else prev
  end.

Definition next_safe_offset_spec (acked : list Z) : result Z :=
  match py_sort acked with
  | [] => Raise IndexError
  | first :: rest => Ok (walk_forward first rest)
  end.

Import Transport.

(** * A concrete consumer

    String keys and integer values, a key codec that rejects empty input
    and a value decoder that rejects an empty payload.  The instances below
    are the inputs at which the general statements are exercised. *)
Module Demo.

Definition cast (key : bytes) : string :=
  Stdlib.Strings.String.string_of_list_byte key.

Definition loads (serializer : string) (data : bytes) : result string :=
  match data with
  | [] => Raise (OtherError "JSONDecodeError")
  | _ :: _ => Ok (Stdlib.Strings.String.string_of_list_byte data)
  end.

Definition demo_app : App :=
  {| app_key_serializer := Some "json"%string;
     app_value_serializer := Some "json"%string;
     app_commit_interval := 1%Q |}.

Definition demo_type : ValueType (K:=string) (V:=Z) :=
  {| from_message := fun k message a default_serializer =>
       match msg_value message with
       | [] => Raise (OtherError "JSONDecodeError")
       | _ :: _ => Ok (Z.of_nat (length (msg_value message)))
       end |}.

Definition demo_topic : Topic :=
  {| topic_topics := ["orders"%string];
     topic_pattern := None;
     topic_type := demo_type;
     topic_key_serializer := None |}.

(** A topic that names both a list of topics and a pattern. *)
Definition both_topic : Topic :=
  {| topic_topics := ["orders"%string];
     topic_pattern := Some "order.*"%string;
     topic_type := demo_type;
     topic_key_serializer := None |}.

Definition demo_transport : TransportT :=
  {| url := "kafka://localhost"%string;
     app := demo_app;
     loop := None |}.

Definition demo_callback : ConsumerCallback (K:=string) (V:=Z) :=
  fun _ _ _ => Ok tt.

Definition demo_handler : KeyDecodeErrorCallback :=
  fun _ _ => Ok tt.

(** What [__init__] builds from the above. *)
Definition demo_consumer
    (hk : option KeyDecodeErrorCallback)
    (hv : option ValueDecodeErrorCallback) : Consumer :=
  {| consumer_id := 0%nat;
     transport := demo_transport;
     _app := demo_app;
     callback := demo_callback;
     topic := demo_topic;
     type := demo_type;
     on_key_decode_error := hk;
     on_value_decode_error := hv;
     _key_serializer := Some "json"%string;
     _value_serializer := Some "json"%string;
     commit_interval := 1%Q;
     _dirty_events := [];
     _acked := [];
     _current_offset := None;
     service_loop := None |}.

Definition acked_ref (offset : Z) : EventRef (V:=Z) :=
  {| ref_event := 0; ref_offset := offset |}.

(** A message whose key does not decode, and one whose value does not. *)
Definition bad_key : Message :=
  {| msg_topic := "orders"%string; msg_key := [];
     msg_value := [Byte.x31]; msg_offset := 7 |}.

Definition bad_value : Message :=
  {| msg_topic := "orders"%string; msg_key := [Byte.x61];
     msg_value := []; msg_offset := 8 |}.

Definition good_message : Message :=
  {| msg_topic := "orders"%string; msg_key := [Byte.x61];
     msg_value := [Byte.x31]; msg_offset := 9 |}.

(** The stream of the specification's example: no generator callbacks
    and the identity as processing step. *)
Definition identity_stream : Tables.Stream string Z unit :=
  {| Tables._coroutines := []; Tables.process := fun _ v => Ok v |}.

End Demo.

(** * Replaying a changelog into a table

    [Table.on_message] is the callback the consumer awaits once for every
    message that decodes, in the order the messages arrive. *)
Section Replay.
Context `{Countable K} {V Coro : Type}.

(** The table after the messages [msgs] (key and decoded value, oldest
    first) were handed to it one after the other; the first exception that
    leaves [on_message] ends the replay. *)
Fixpoint feed (self : Tables.Table K V Coro) (topic : Topic (K:=K) (V:=V))
    (msgs : list (K * V)) : result (Tables.Table K V Coro) :=
  match msgs with
  | [] => Ok self
  | (key, value) :: msgs' =>
      self' ← Tables.on_message self topic key value;
      feed self' topic msgs'
  end.

(** The value of the last message of [msgs] that carries [key]. *)
Fixpoint last_value (key : K) (msgs : list (K * V)) : option V :=
  match msgs with
  | [] => None
  | (k, v) :: msgs' =>
      match last_value key msgs' with
      | Some v' => Some v'
      | None => if decide (k = key) then Some v else None
      end
  end.

End Replay.

(** A second concrete consumer: the application sets no key serializer, so
    keys are delivered as they arrive. *)
Module Raw.

Definition raw_app : App :=
  {| app_key_serializer := None;
     app_value_serializer := Some "json"%string;
     app_commit_interval := 1%Q |}.

Definition raw_transport : TransportT :=
  {| url := "kafka://localhost"%string; app := raw_app; loop := None |}.

Definition raw_consumer : Consumer :=
  {| consumer_id := 1%nat;
     transport := raw_transport;
     _app := raw_app;
     callback := Demo.demo_callback;
     topic := Demo.demo_topic;
     type := Demo.demo_type;
     on_key_decode_error := None;
     on_value_decode_error := None;
     _key_serializer := None;
     _value_serializer := Some "json"%string;
     commit_interval := 1%Q;
     _dirty_events := [];
     _acked := [];
     _current_offset := None;
     service_loop := None |}.

(** A callback that fails. *)
Definition failing_callback : ConsumerCallback (K:=string) (V:=Z) :=
  fun _ _ _ => Raise (OtherError "RuntimeError").

End Raw.

(** * Facts about list indexing and sorting *)

Lemma py_getitem_last (l : list Z) (x : Z) :
  last l = Some x -> py_getitem l (0 - 1) = Ok x.
Proof.
  intros Hlast. unfold py_getitem.
  rewrite last_lookup in Hlast.
  assert (Hlen : (0 < length l)%nat).
  { apply lookup_lt_Some in Hlast. destruct l; simpl in *; lia. }
  cbv zeta.
  destruct (Z.ltb_spec (0 - 1) 0) as [_|?]; [|lia].
  destruct (Z.ltb_spec (0 - 1 + Z.of_nat (length l)) 0) as [?|_]; [lia|].
  destruct (Z.leb_spec (Z.of_nat (length l)) (0 - 1 + Z.of_nat (length l)))
    as [?|_]; [lia|].
  cbn [orb].
  replace (Z.to_nat (0 - 1 + Z.of_nat (length l))) with (pred (length l))
    by lia.
  by rewrite Hlast.
Qed.

Lemma py_getitem_pred (l : list Z) (i : nat) (x : Z) :
  l !! i = Some x -> py_getitem l (Z.of_nat (S i) - 1) = Ok x.
Proof.
  intros Hi. unfold py_getitem.
  pose proof (lookup_lt_Some _ _ _ Hi) as Hlt.
  replace (Z.of_nat (S i) - 1) with (Z.of_nat i) by lia.
  cbv zeta.
  destruct (Z.ltb_spec (Z.of_nat i) 0) as [?|_]; [lia|].
  destruct (Z.ltb_spec (Z.of_nat i) 0) as [?|_]; [lia|].
  destruct (Z.leb_spec (Z.of_nat (length l)) (Z.of_nat i)) as [?|_]; [lia|].
  cbn [orb]. by rewrite Nat2Z.id, Hi.
Qed.

(** In an ascending list every entry lies between the first and the last. *)
Lemma sorted_first_le (a : Z) (l : list Z) (x : Z) :
  StronglySorted Z.le (a :: l) -> x ∈ a :: l -> a <= x.
Proof.
  intros Hs Hx. apply StronglySorted_cons in Hs as [Hall _].
  apply elem_of_cons in Hx as [->|Hx]; [lia|].
  rewrite Forall_forall in Hall. by apply Hall.
Qed.

Lemma sorted_le_last (l : list Z) (x z : Z) :
  StronglySorted Z.le l -> last l = Some z -> x ∈ l -> x <= z.
Proof.
  induction l as [|a l IH]; intros Hs Hlast Hx; [by apply elem_of_nil in Hx|].
  destruct l as [|b l].
  - simpl in Hlast. apply list_elem_of_singleton in Hx. simplify_eq. lia.
  - assert (Hz : z ∈ b :: l).
    { apply list_elem_of_lookup. exists (pred (length (b :: l))).
      rewrite <- last_lookup. exact Hlast. }
    apply elem_of_cons in Hx as [->|Hx].
    + eapply sorted_first_le; [exact Hs|]. by apply elem_of_cons; right.
    + apply IH; [|exact Hlast|exact Hx].
      by apply StronglySorted_cons in Hs as [_ Hs].
Qed.

Lemma py_sort_sorted (l : list Z) : StronglySorted Z.le (py_sort l).
Proof. apply (StronglySorted_merge_sort Z.le). Qed.

Lemma py_sort_elem_of (l : list Z) (x : Z) : x ∈ py_sort l <-> x ∈ l.
Proof. unfold py_sort. by rewrite (merge_sort_Permutation Z.le l). Qed.

Lemma py_sort_Permutation (l : list Z) : py_sort l ≡ₚ l.
Proof. apply merge_sort_Permutation. Qed.

(** * Facts about the scan of [_new_offset] *)

(** When every entry is the same, no iteration breaks and the [else]
    clause raises. *)
Lemma _new_offset_loop_all_equal (acked : list Z) (a : Z) :
  (forall x, x ∈ acked -> x = a) ->
  forall (rest : list Z) (i : nat),
    drop i acked = rest ->
    _new_offset_loop acked (Z.of_nat i) rest = Raise IndexError.
Proof.
  intros Hall rest. induction rest as [|offset rest' IH]; intros i Hdrop.
  - reflexivity.
  - assert (Hi : acked !! i = Some offset).
    { rewrite <- (Nat.add_0_r i), <- lookup_drop, Hdrop. reflexivity. }
    assert (Hrest : drop (S i) acked = rest').
    { rewrite (drop_S _ _ _ Hi) in Hdrop. by simplify_eq. }
    assert (Hprev : py_getitem acked (Z.of_nat i - 1) = Ok a).
    { destruct i as [|i'].
      - change (Z.of_nat 0 - 1) with (0 - 1).
        destruct (last acked) as [z|] eqn:Hlast.
        + rewrite (py_getitem_last _ _ Hlast). f_equal. apply Hall.
          rewrite last_lookup in Hlast. by eapply list_elem_of_lookup_2.
        + apply last_None in Hlast. subst acked. discriminate.
      - destruct (acked !! i') as [y|] eqn:Hy.
        + rewrite (py_getitem_pred _ _ _ Hy). f_equal. apply Hall.
          by eapply list_elem_of_lookup_2.
        + apply lookup_ge_None in Hy. apply lookup_lt_Some in Hi. lia. }
    cbn [_new_offset_loop]. rewrite Hprev.
    rewrite (Hall offset) by (by eapply list_elem_of_lookup_2).
    rewrite Z.eqb_refl. cbn [negb].
    replace (Z.of_nat i + 1) with (Z.of_nat (S i)) by lia.
    by apply IH.
Qed.

(** When the first entry differs from the last one, the first iteration
    compares them ([acked[0 - 1]] is the last entry) and breaks. *)
Lemma _new_offset_loop_first (a0 z : Z) (t : list Z) :
  last (a0 :: t) = Some z -> a0 <> z ->
  _new_offset_loop (a0 :: t) 0 (a0 :: t) = Ok a0.
Proof.
  intros Hlast Hne. cbn [_new_offset_loop].
  rewrite (py_getitem_last _ _ Hlast).
  destruct (Z.eqb_spec a0 z) as [?|_]; [done|reflexivity].
Qed.

(** On an ascending list the scan therefore depends on the two ends only. *)
Lemma _new_offset_loop_sorted (acked : list Z) :
  StronglySorted Z.le acked ->
  _new_offset_loop acked 0 acked =
    match acked, last acked with
    | a0 :: _, Some z => if a0 =? z then Raise IndexError else Ok a0
    | _, _ => Raise IndexError
    end.
Proof.
  intros Hs. destruct acked as [|a0 t]; [reflexivity|].
  destruct (last (a0 :: t)) as [z|] eqn:Hlast.
  - destruct (Z.eqb_spec a0 z) as [->|Hne].
    + apply (_new_offset_loop_all_equal (z :: t) z) with (i := 0%nat);
        [|reflexivity].
      intros x Hx. apply Z.le_antisymm.
      * exact (sorted_le_last _ _ _ Hs Hlast Hx).
      * exact (sorted_first_le _ _ _ Hs Hx).
    + exact (_new_offset_loop_first _ _ _ Hlast Hne).
  - by apply last_None in Hlast.
Qed.

(** Two ascending lists with the same entries, however often each occurs,
    give the same scan. *)
Lemma _new_offset_loop_same_entries (l1 l2 : list Z) :
  StronglySorted Z.le l1 -> StronglySorted Z.le l2 ->
  (forall x, x ∈ l1 <-> x ∈ l2) ->
  _new_offset_loop l1 0 l1 = _new_offset_loop l2 0 l2.
Proof.
  intros Hs1 Hs2 Hsame.
  rewrite !_new_offset_loop_sorted by done.
  destruct l1 as [|a1 t1], l2 as [|a2 t2]; try reflexivity.
  - exfalso. eapply elem_of_nil, Hsame. by left.
  - exfalso. eapply elem_of_nil, Hsame. by left.
  - destruct (last (a1 :: t1)) as [z1|] eqn:H1; [|by apply last_None in H1].
    destruct (last (a2 :: t2)) as [z2|] eqn:H2; [|by apply last_None in H2].
    assert (Hz1 : z1 ∈ a1 :: t1).
    { rewrite last_lookup in H1. by eapply list_elem_of_lookup_2. }
    assert (Hz2 : z2 ∈ a2 :: t2).
    { rewrite last_lookup in H2. by eapply list_elem_of_lookup_2. }
    assert (a1 = a2) as ->.
    { apply Z.le_antisymm.
      - eapply sorted_first_le; [exact Hs1|]. apply Hsame. by left.
      - eapply sorted_first_le; [exact Hs2|]. apply Hsame. by left. }
    assert (z1 = z2) as ->.
    { apply Z.le_antisymm.
      - eapply sorted_le_last; [exact Hs2|exact H2|]. by apply Hsame.
      - eapply sorted_le_last; [exact Hs1|exact H1|]. by apply Hsame. }
    reflexivity.
Qed.

(** * The acknowledged offsets *)

Section Acknowledged.
Context {K V : Type}.
Implicit Types (c self : Consumer (K:=K) (V:=V)).
Implicit Types (ref : EventRef (V:=V)).

Lemma on_event_ready_acked c ref :
  _acked (on_event_ready c ref)
  = py_sort (_acked c ++ [ref_offset ref]).
Proof. reflexivity. Qed.

Lemma on_event_ready_current_offset c ref :
  _current_offset (on_event_ready c ref)
  = _current_offset c.
Proof. reflexivity. Qed.

Lemma on_event_ready_sorted c ref :
  StronglySorted Z.le (_acked (on_event_ready c ref)).
Proof. rewrite on_event_ready_acked. apply py_sort_sorted. Qed.

Lemma on_event_ready_elem_of c ref (x : Z) :
  x ∈ _acked (on_event_ready c ref)
  <-> x ∈ _acked c \/ x = ref_offset ref.
Proof.
  rewrite on_event_ready_acked, py_sort_elem_of, elem_of_app.
  by rewrite list_elem_of_singleton.
Qed.

Lemma acknowledge_snoc c (refs : list EventRef) ref :
  acknowledge c (refs ++ [ref])
  = on_event_ready (acknowledge c refs) ref.
Proof. unfold acknowledge. by rewrite fold_left_app. Qed.

Lemma acknowledge_sorted c (refs : list EventRef) :
  StronglySorted Z.le (_acked c) ->
  StronglySorted Z.le (_acked (acknowledge c refs)).
Proof.
  intros Hc. induction refs as [|ref refs IH] using rev_ind; [exact Hc|].
  rewrite acknowledge_snoc. apply on_event_ready_sorted.
Qed.

Lemma acknowledge_elem_of c (refs : list EventRef) (x : Z) :
  x ∈ _acked (acknowledge c refs)
  <-> x ∈ _acked c \/ x ∈ map ref_offset refs.
Proof.
  induction refs as [|ref refs IH] using rev_ind.
  - simpl. rewrite elem_of_nil. tauto.
  - rewrite acknowledge_snoc, on_event_ready_elem_of, IH.
    rewrite map_app, elem_of_app. simpl. rewrite list_elem_of_singleton.
    tauto.
Qed.

(** [_new_offset] reads the list through its entries only, as long as the
    list is ascending. *)
Lemma _new_offset_same_entries c1 c2 :
  StronglySorted Z.le (_acked c1) ->
  StronglySorted Z.le (_acked c2) ->
  (forall x, x ∈ _acked c1 <-> x ∈ _acked c2) ->
  _new_offset c1 = _new_offset c2.
Proof. apply _new_offset_loop_same_entries. Qed.

Lemma _new_offset_only_IndexError c (e : exn) :
  _new_offset c = Raise e -> e = IndexError.
Proof.
  unfold _new_offset.
  assert (Hgen : forall rest i,
    drop i (_acked c) = rest ->
    _new_offset_loop (_acked c) (Z.of_nat i) rest = Raise e ->
    e = IndexError).
  { intros rest. induction rest as [|offset rest' IH]; intros i Hdrop Hr.
    - simpl in Hr. congruence.
    - cbn [_new_offset_loop] in Hr.
      destruct (py_getitem (_acked c) (Z.of_nat i - 1)) as [prev|e']
        eqn:Hget.
      + destruct (negb (offset =? prev)); [discriminate|].
        replace (Z.of_nat i + 1) with (Z.of_nat (S i)) in Hr by lia.
        apply (IH (S i)); [|exact Hr].
        assert (Hi : _acked c !! i = Some offset).
        { rewrite <- (Nat.add_0_r i), <- lookup_drop, Hdrop. reflexivity. }
        rewrite (drop_S _ _ _ Hi) in Hdrop. by simplify_eq.
      + unfold py_getitem in Hget. repeat case_match; congruence. }
  apply (Hgen _ 0%nat). reflexivity.
Qed.

End Acknowledged.

(** * Receiving a message *)

Section Receive.
Context {K V : Type}.
Variable cast : bytes -> K.
Variable loads : string -> bytes -> result K.
Implicit Types (c : Consumer (K:=K) (V:=V)).
Implicit Types (message : Message).

(** [to_KV] wraps a failure of the key codec in [KeyDecodeError]. *)
Lemma to_KV_key_error c message (ser : string) (cause : exn) :
  _key_serializer c = Some ser -> ser <> ""%string ->
  loads ser (msg_key message) = Raise cause ->
  to_KV cast loads c message = Raise (KeyDecodeError cause).
Proof.
  intros Hser Hne Hloads. unfold to_KV. rewrite Hser. simpl.
  apply String.eqb_neq in Hne. rewrite Hne. simpl. by rewrite Hloads.
Qed.

(** [to_KV] raises nothing but the two decode errors. *)
Lemma to_KV_raises c message (e : exn) :
  to_KV cast loads c message = Raise e ->
  exists cause, e = KeyDecodeError cause \/ e = ValueDecodeError cause.
Proof.
  unfold to_KV, mbind, result_bind. intros Hr.
  repeat case_match; simplify_eq; eauto.
Qed.

(** Without a handler a decode error leaves [on_message] as it is: the
    callback is not awaited and the event is not tracked. *)
Lemma on_message_key_error_unhandled c message (cause : exn) :
  to_KV cast loads c message = Raise (KeyDecodeError cause) ->
  on_key_decode_error c = None ->
  on_message cast loads c message = (c, [], Raise (KeyDecodeError cause)).
Proof.
  intros Hkv Hh. unfold on_message, on_message_try.
  by rewrite Hkv, Hh.
Qed.

Lemma on_message_value_error_unhandled c message (cause : exn) :
  to_KV cast loads c message = Raise (ValueDecodeError cause) ->
  on_value_decode_error c = None ->
  on_message cast loads c message = (c, [], Raise (ValueDecodeError cause)).
Proof.
  intros Hkv Hh. unfold on_message, on_message_try.
  by rewrite Hkv, Hh.
Qed.

(** With a handler that returns, the [try] statement ends with [k] and
    [v] unbound, and the next line reads [v]. *)
Lemma on_message_value_error_handled c message (cause : exn)
    (handler : ValueDecodeErrorCallback) :
  to_KV cast loads c message = Raise (ValueDecodeError cause) ->
  on_value_decode_error c = Some handler ->
  handler (ValueDecodeError cause) message = Ok tt ->
  on_message cast loads c message
  = (c, [CallValueDecodeError (ValueDecodeError cause) message],
     Raise UnboundLocalError).
Proof.
  intros Hkv Hh Hret. unfold on_message, on_message_try.
  by rewrite Hkv, Hh, Hret.
Qed.

(** When decoding succeeds the event is tracked and the callback awaited. *)
Lemma on_message_decoded c message (k : K) (v : V) :
  to_KV cast loads c message = Ok (k, v) ->
  on_message cast loads c message
  = (track_event c v (msg_offset message),
     [CallCallback (topic c) k v],
     callback c (topic c) k v).
Proof.
  intros Hkv. unfold on_message, on_message_try.
  by rewrite Hkv.
Qed.

(** C6: a message whose key does not decode, on a consumer that was
    given an [on_key_decode_error] handler which returns.  The handler is
    called with the error and the message, the event is not tracked and
    the callback is not awaited; but [on_message] does not return: after
    the [try] statement it reads the local [v], which was never bound,
    and raises [UnboundLocalError]. *)
Theorem C6_handled_key_error_raises_UnboundLocalError c message
    (ser : string) (cause : exn) (handler : KeyDecodeErrorCallback) :
  _key_serializer c = Some ser -> ser <> ""%string ->
  loads ser (msg_key message) = Raise cause ->
  on_key_decode_error c = Some handler ->
  handler (KeyDecodeError cause) message = Ok tt ->
  on_message cast loads c message
  = (c, [CallKeyDecodeError (KeyDecodeError cause) message],
     Raise UnboundLocalError).
Proof.
  intros Hser Hne Hloads Hh Hret.
  pose proof (to_KV_key_error _ _ _ _ Hser Hne Hloads) as Hkv.
  unfold on_message, on_message_try.
  by rewrite Hkv, Hh, Hret.
Qed.

(** [on_message] touches neither the acknowledged list nor
    [_current_offset], and never calls the backend. *)
Lemma on_message_frame c message :
  _acked (on_message cast loads c message).1.1
  = _acked c
  /\ _current_offset (on_message cast loads c message).1.1
     = _current_offset c
  /\ commits (on_message cast loads c message).1.2 = [].
Proof.
  unfold on_message, on_message_try.
  repeat case_match; simplify_eq; done.
Qed.

End Receive.

(** * The commit loop *)

Section CommitLoop.
Context {K V : Type}.
Variable cast : bytes -> K.
Variable loads : string -> bytes -> result K.
Implicit Types (c self : Consumer (K:=K) (V:=V)).
Implicit Types (s : System (K:=K) (V:=V)).
Implicit Types (tr : list (effect (K:=K) (V:=V))).

Lemma _should_commit_true c (o : Z) :
  _should_commit c o = true
  <-> _current_offset c = None
      \/ exists cur, _current_offset c = Some cur /\ o <> 0 /\ cur < o.
Proof.
  unfold _should_commit.
  destruct (_current_offset c) as [cur|].
  - rewrite andb_true_iff, negb_true_iff, Z.eqb_neq, Z.ltb_lt. split.
    + intros [? ?]. right. by exists cur.
    + intros [?|(cur' & ? & ? & ?)]; [done|]. by simplify_eq.
  - split; [by left|done].
Qed.

Lemma tick_skip c (backend : result unit) :
  _new_offset c = Raise IndexError ->
  _commit_handler_tick c backend = (c, [], Ok tt).
Proof. intros Hn. unfold _commit_handler_tick. by rewrite Hn. Qed.

Lemma tick_commit c (backend : result unit) (o : Z) :
  _new_offset c = Ok o ->
  _should_commit c o = true ->
  _commit_handler_tick c backend
  = (set_current_offset c (Some o), [BackendCommit o], backend).
Proof.
  intros Hn Hs. unfold _commit_handler_tick. by rewrite Hn, Hs.
Qed.

Lemma tick_keep c (backend : result unit) (o : Z) :
  _new_offset c = Ok o ->
  _should_commit c o = false ->
  _commit_handler_tick c backend = (c, [], Ok tt).
Proof.
  intros Hn Hs. unfold _commit_handler_tick. by rewrite Hn, Hs.
Qed.

(** The three ways a pass through the loop body can go. *)
Lemma tick_cases c (backend : result unit) :
  (_new_offset c = Raise IndexError
   /\ _commit_handler_tick c backend = (c, [], Ok tt))
  \/ (exists o, _new_offset c = Ok o
      /\ _should_commit c o = false
      /\ _commit_handler_tick c backend = (c, [], Ok tt))
  \/ (exists o, _new_offset c = Ok o
      /\ _should_commit c o = true
      /\ _commit_handler_tick c backend
         = (set_current_offset c (Some o),
            [BackendCommit o], backend)).
Proof.
  destruct (_new_offset c) as [o|e] eqn:Hn.
  - destruct (_should_commit c o) eqn:Hs.
    + right. right. exists o. by rewrite (tick_commit _ _ _ Hn Hs).
    + right. left. exists o. by rewrite (tick_keep _ _ _ Hn Hs).
  - pose proof (_new_offset_only_IndexError _ _ Hn) as ->.
    left. by rewrite (tick_skip _ _ Hn).
Qed.

Lemma commits_app tr1 tr2 :
  commits (tr1 ++ tr2) = commits tr1 ++ commits tr2.
Proof.
  induction tr1 as [|e tr1 IH]; [reflexivity|].
  destruct e; simpl; by rewrite ?IH.
Qed.

Lemma sorted_lt_le_last (l : list Z) (x z : Z) :
  StronglySorted Z.lt l -> last l = Some z -> x ∈ l -> x <= z.
Proof.
  intros Hs. apply sorted_le_last.
  induction Hs as [|a l Hs IH Hall]; constructor; [exact IH|].
  eapply Forall_impl; [exact Hall|]. simpl. lia.
Qed.

Lemma sys_step_received s (message : Message) :
  _acked (consumer
                      (sys_step cast loads s (Received message)))
  = _acked (consumer s)
  /\ _current_offset
       (consumer
          (sys_step cast loads s (Received message)))
     = _current_offset (consumer s)
  /\ commits
       (trace
          (sys_step cast loads s (Received message)))
     = commits (trace s)
  /\ commit_task
       (sys_step cast loads s (Received message))
     = commit_task s.
Proof.
  destruct (on_message_frame cast loads (consumer s) message)
    as (Ha & Hc & Ht).
  unfold sys_step.
  destruct (on_message cast loads (consumer s) message)
    as [[c' called] r].
  simpl in *. rewrite commits_app, Ht, app_nil_r. done.
Qed.

Lemma loop_invariant_step s (st : step) :
  loop_invariant s ->
  loop_invariant (sys_step cast loads s st).
Proof.
  intros (Hlog & Hcur & Hacked). destruct st as [message|ref|backend].
  - destruct (sys_step_received s message) as (Ha & Hc & Ht & _).
    unfold loop_invariant. by rewrite Ha, Hc, Ht.
  - split; [exact Hlog|]. split; [exact Hcur|]. apply on_event_ready_sorted.
  - unfold sys_step.
    destruct (commit_task s) eqn:Htask; [|by repeat split].
    destruct (tick_cases (consumer s) backend)
      as [[_ ->]|[(o & _ & _ & ->)|(o & Hn & Hs & ->)]].
    + unfold loop_invariant. simpl. rewrite app_nil_r. by repeat split.
    + unfold loop_invariant. simpl. rewrite app_nil_r. by repeat split.
    + unfold loop_invariant. simpl. rewrite commits_app. simpl.
      split; [|split; [by rewrite last_snoc|exact Hacked]].
      apply StronglySorted_app.
      split; [|split; [exact Hlog|repeat constructor]].
      intros x1 x2 Hx1 Hx2. apply list_elem_of_singleton in Hx2 as ->.
      apply _should_commit_true in Hs as [Hnone|(cur & Hsome & _ & Hlt)].
      * rewrite Hnone in Hcur. symmetry in Hcur. apply last_None in Hcur.
        rewrite Hcur in Hx1. by apply elem_of_nil in Hx1.
      * rewrite Hsome in Hcur. symmetry in Hcur.
        pose proof (sorted_lt_le_last _ _ _ Hlog Hcur Hx1). lia.
Qed.

Lemma loop_invariant_run (sched : list step) s :
  loop_invariant s -> loop_invariant (run cast loads s sched).
Proof.
  revert s. induction sched as [|st sched IH]; intros s Hs; [exact Hs|].
  simpl. apply IH. by apply loop_invariant_step.
Qed.

Lemma loop_invariant_start c :
  _acked c = [] -> _current_offset c = None ->
  loop_invariant (start c).
Proof.
  intros Ha Hc. unfold loop_invariant. simpl. rewrite Ha, Hc.
  repeat split; constructor.
Qed.

Lemma __init___fresh (ids ids' : nat) (t : TransportT)
    (topic : option Topic)
    (callback : option ConsumerCallback)
    (hk : option KeyDecodeErrorCallback)
    (hv : option ValueDecodeErrorCallback)
    (ci : option Q) tr c :
  __init__ ids t topic callback hk hv ci = (ids', tr, Ok c) ->
  _acked c = [] /\ _current_offset c = None
  /\ _dirty_events c = [] /\ tr = [].
Proof.
  unfold __init__. intros Hinit.
  destruct callback as [cb|]; [|discriminate].
  destruct topic as [tp|]; [|discriminate].
  destruct (truthy_seq (topic_topics tp)
            && truthy_opt (topic_pattern tp)); [discriminate|].
  by simplify_eq.
Qed.

(** Once the loop has ended, nothing calls the backend any more. *)
Lemma run_ended s (e : exn) (sched : list step) :
  commit_task s = Ended e ->
  commit_task (run cast loads s sched) = Ended e
  /\ commits (trace (run cast loads s sched))
     = commits (trace s)
  /\ _current_offset
       (consumer (run cast loads s sched))
     = _current_offset (consumer s).
Proof.
  revert s. induction sched as [|st sched IH]; intros s Hs; [done|].
  simpl. destruct st as [message|ref|backend].
  - destruct (sys_step_received s message) as (_ & Hc & Ht & Htask).
    destruct (IH (sys_step cast loads s (Received message)))
      as (? & ? & ?); [by rewrite Htask|].
    split; [done|]. split; congruence.
  - destruct (IH (sys_step cast loads s (Acked ref)))
      as (? & ? & ?); [exact Hs|]. done.
  - assert (sys_step cast loads s (Tick backend) = s) as ->.
    { unfold sys_step. by rewrite Hs. }
    by apply IH.
Qed.

End CommitLoop.

(** * The safe offset *)

Section SafeOffset.
Context {K V : Type}.
Variable cast : bytes -> K.
Variable loads : string -> bytes -> result K.
Implicit Types (c base : Consumer (K:=K) (V:=V)).
Implicit Types (ref : EventRef (V:=V)).
Implicit Types (refs : list (EventRef (V:=V))).

(** C1: [next_safe_offset()] is to return the end of the gap-free run
    that starts at the smallest acknowledged offset.  The source's
    [_new_offset] does not: at [i = 0] it compares the first entry with
    [acked[-1]], the last one, and breaks as soon as two entries differ.
    On every ascending list it returns the first entry when the list
    holds two different offsets and raises [IndexError] otherwise.  After
    5, 6 and 8 were acknowledged it returns 5 where the specification's
    walk returns 6; after 5 and 6 it returns 5 instead of 6; after 5
    alone it raises instead of returning 5. *)
Theorem C1_new_offset_returns_first_entry c (v : V) (l : list Z) :
  _new_offset (set_acked c (py_sort l))
  = match py_sort l, last (py_sort l) with
    | first :: _, Some z => if first =? z then Raise IndexError else Ok first
    | _, _ => Raise IndexError
    end
  /\ (_new_offset
        (acknowledge (set_acked c [])
           [Build_EventRef v 5; Build_EventRef v 6;
            Build_EventRef v 8]) = Ok 5
      /\ next_safe_offset_spec [5; 6; 8] = Ok 6)
  /\ (_new_offset
        (acknowledge (set_acked c [])
           [Build_EventRef v 5; Build_EventRef v 6]) = Ok 5
      /\ next_safe_offset_spec [5; 6] = Ok 6)
  /\ (_new_offset
        (acknowledge (set_acked c [])
           [Build_EventRef v 5]) = Raise IndexError
      /\ next_safe_offset_spec [5] = Ok 5).
Proof.
  split; [|repeat split; reflexivity].
  unfold _new_offset. simpl.
  generalize (py_sort_sorted l). generalize (py_sort l). intros acked Hs.
  rewrite (_new_offset_loop_sorted _ Hs). by destruct acked.
Qed.

(** C2: [_new_offset] raises [IndexError] (the specification's
    [NoAckedOffsets]) on the empty list, and a pass of the commit loop
    that sees the error leaves the consumer as it is and calls nothing.
    But it also raises on a list that is not empty: after offset 5 alone
    was acknowledged, and after 5 was acknowledged twice. *)
Theorem C2_new_offset_raises_on_single_offset c (v : V) :
  _new_offset (set_acked c []) = Raise IndexError
  /\ _new_offset
       (on_event_ready (set_acked c [])
          (Build_EventRef v 5)) = Raise IndexError
  /\ _new_offset
       (acknowledge (set_acked c [])
          [Build_EventRef v 5; Build_EventRef v 5])
     = Raise IndexError
  /\ (forall (s : System (K:=K) (V:=V)) (backend : result unit),
        commit_task s = Looping ->
        _new_offset (consumer s) = Raise IndexError ->
        sys_step cast loads s (Tick backend) = s).
Proof.
  repeat split; try reflexivity.
  intros s backend Htask Hn. unfold sys_step.
  rewrite Htask, (tick_skip _ backend Hn).
  destruct s as [c' t' tr']. simpl in *. by rewrite Htask, app_nil_r.
Qed.

(** C3: acknowledging an offset that is already among the acknowledged
    ones leaves the result of [_new_offset] as it was, whatever was
    acknowledged before and in whatever order. *)
Theorem C3_duplicate_ack_idempotent base refs ref :
  ref_offset ref ∈ map ref_offset refs ->
  _new_offset
    (on_event_ready
       (acknowledge (set_acked base []) refs) ref)
  = _new_offset
      (acknowledge (set_acked base []) refs).
Proof.
  intros Hin. apply _new_offset_same_entries.
  - apply on_event_ready_sorted.
  - apply acknowledge_sorted. simpl. constructor.
  - intros x. rewrite on_event_ready_elem_of, acknowledge_elem_of.
    split; [|tauto]. intros [Hx| ->]; [exact Hx|]. by right.
Qed.

(** Acknowledging the same offset twice in a row is the case [refs ++ [ref]]. *)
Lemma ack_twice_same_as_once base refs ref :
  _new_offset
    (acknowledge (set_acked base []) (refs ++ [ref; ref]))
  = _new_offset
      (acknowledge (set_acked base []) (refs ++ [ref])).
Proof.
  replace (refs ++ [ref; ref]) with ((refs ++ [ref]) ++ [ref])
    by (by rewrite <- app_assoc).
  rewrite (acknowledge_snoc _ (refs ++ [ref])).
  apply _new_offset_same_entries.
  - apply on_event_ready_sorted.
  - apply acknowledge_sorted. simpl. constructor.
  - intros x. rewrite on_event_ready_elem_of, acknowledge_elem_of.
    rewrite map_app, elem_of_app. simpl. rewrite list_elem_of_singleton.
    tauto.
Qed.

(** C10: the acknowledged list is ascending whenever it is read.  The
    constructor leaves it empty; [on_event_ready] keeps every entry, adds
    the new offset and sorts; so after any interleaving of
    acknowledgements and passes of the commit loop the list is ascending,
    and that is the list the next pass of [_new_offset] scans. *)
Theorem C10_acked_always_ascending (ids ids' : nat) (t : TransportT)
    (topic : option Topic)
    (callback : option ConsumerCallback)
    (hk : option KeyDecodeErrorCallback)
    (hv : option ValueDecodeErrorCallback)
    (ci : option Q) (tr : list effect) c
    (sched : list step) :
  __init__ ids t topic callback hk hv ci = (ids', tr, Ok c) ->
  _acked c = []
  /\ StronglySorted Z.le
       (_acked (consumer (run cast loads (start c) sched)))
  /\ (forall c' ref,
        StronglySorted Z.le (_acked (on_event_ready c' ref))
        /\ _acked (on_event_ready c' ref)
           ≡ₚ _acked c' ++ [ref_offset ref]).
Proof.
  intros Hinit. destruct (__init___fresh _ _ _ _ _ _ _ _ _ _ Hinit)
    as (Hacked & Hcur & _ & _).
  split; [exact Hacked|]. split.
  - apply (loop_invariant_run cast loads sched (start c)).
    by apply loop_invariant_start.
  - intros c' ref. split; [apply on_event_ready_sorted|].
    rewrite on_event_ready_acked. apply py_sort_Permutation.
Qed.

End SafeOffset.

(** [__init__] on the concrete transport, topic and callback builds the
    concrete consumer. *)
Lemma demo_init hk hv :
  __init__ 0 Demo.demo_transport (Some Demo.demo_topic)
    (Some Demo.demo_callback) hk hv None
  = (1%nat, [], Ok (Demo.demo_consumer hk hv)).
Proof. reflexivity. Qed.

Lemma C3_witness :
  _new_offset
    (on_event_ready
       (acknowledge (set_acked (Demo.demo_consumer None None) [])
          [Demo.acked_ref 5])
       (Demo.acked_ref 5))
  = _new_offset
      (acknowledge (set_acked (Demo.demo_consumer None None) [])
         [Demo.acked_ref 5]).
Proof.
  apply (C3_duplicate_ack_idempotent (Demo.demo_consumer None None)
           [Demo.acked_ref 5] (Demo.acked_ref 5)).
  simpl. apply list_elem_of_singleton. reflexivity.
Defined.

Lemma C2_witness :
  sys_step Demo.cast Demo.loads (start (Demo.demo_consumer None None))
    (Tick (Ok tt))
  = start (Demo.demo_consumer None None).
Proof.
  apply (C2_new_offset_raises_on_single_offset Demo.cast Demo.loads
           (Demo.demo_consumer None None) 0);
    reflexivity.
Defined.

Lemma C10_witness :
  _acked (Demo.demo_consumer None None) = []
  /\ StronglySorted Z.le
       (_acked
          (consumer
             (run Demo.cast Demo.loads (start (Demo.demo_consumer None None))
                [Acked (Demo.acked_ref 6); Tick (Ok tt);
                 Acked (Demo.acked_ref 5)])))
  /\ (forall (c' : Consumer (K:=string) (V:=Z)) ref,
        StronglySorted Z.le (_acked (on_event_ready c' ref))
        /\ _acked (on_event_ready c' ref)
           ≡ₚ _acked c' ++ [ref_offset ref]).
Proof.
  apply (C10_acked_always_ascending Demo.cast Demo.loads 0 1
           Demo.demo_transport (Some Demo.demo_topic)
           (Some Demo.demo_callback) None None None []
           (Demo.demo_consumer None None)).
  reflexivity.
Defined.

(** * Commits *)

Section Commits.
Context {K V : Type}.
Variable cast : bytes -> K.
Variable loads : string -> bytes -> result K.
Implicit Types (c : Consumer (K:=K) (V:=V)).
Implicit Types (s : System (K:=K) (V:=V)).

(** A pass of the loop calls the backend exactly when [_new_offset]
    returned an offset and [_should_commit] let it through. *)
Lemma tick_commits_iff c (backend : result unit) (o : Z) :
  BackendCommit o ∈ (_commit_handler_tick c backend).1.2
  <-> _new_offset c = Ok o
      /\ (_current_offset c = None
          \/ exists cur, _current_offset c = Some cur
                         /\ o <> 0 /\ cur < o).
Proof.
  rewrite <- _should_commit_true.
  destruct (tick_cases c backend)
    as [[Hn ->]|[(o' & Hn & Hs & ->)|(o' & Hn & Hs & ->)]]; simpl.
  - rewrite elem_of_nil, Hn. split; [done|]. by intros [? _].
  - rewrite elem_of_nil, Hn. split; [done|].
    intros [? ?]. simplify_eq. congruence.
  - rewrite list_elem_of_singleton, Hn. split.
    + intros ?. by simplify_eq.
    + intros [? _]. by simplify_eq.
Qed.

(** C4: from construction on, through any interleaving of
    acknowledgements and passes of the commit loop (whatever the backend
    answers), the offsets the backend's commit is called with increase
    strictly, and [_current_offset] is the offset of the last call.  A
    pass calls the backend with [o] exactly when [_new_offset] returned
    [o] and either nothing was committed before or [o] is non-zero and
    greater than [_current_offset]. *)
Theorem C4_commit_offsets_strictly_increase (ids ids' : nat)
    (t : TransportT) (topic : option Topic)
    (callback : option ConsumerCallback)
    (hk : option KeyDecodeErrorCallback)
    (hv : option ValueDecodeErrorCallback)
    (ci : option Q) (tr : list effect) c
    (sched : list step) :
  __init__ ids t topic callback hk hv ci = (ids', tr, Ok c) ->
  StronglySorted Z.lt
    (commits (trace (run cast loads (start c) sched)))
  /\ _current_offset
       (consumer (run cast loads (start c) sched))
     = last (commits
               (trace (run cast loads (start c) sched)))
  /\ (forall (backend : result unit) (o : Z),
        BackendCommit o
          ∈ (_commit_handler_tick
               (consumer (run cast loads (start c) sched))
               backend).1.2
        <-> _new_offset
              (consumer (run cast loads (start c) sched)) = Ok o
            /\ (_current_offset
                  (consumer (run cast loads (start c) sched))
                = None
                \/ exists cur,
                     _current_offset
                       (consumer (run cast loads (start c) sched))
                     = Some cur
                     /\ o <> 0 /\ cur < o)).
Proof.
  intros Hinit. destruct (__init___fresh _ _ _ _ _ _ _ _ _ _ Hinit)
    as (Hacked & Hcur & _ & _).
  destruct (loop_invariant_run cast loads sched (start c))
    as (Hlog & Hlast & _);
    [by apply loop_invariant_start|].
  split; [exact Hlog|]. split; [exact Hlast|].
  intros backend o. apply tick_commits_iff.
Qed.

(** C5, as the source has it: nothing in [_commit_handler] catches what
    [_commit] raises.  When the backend's commit fails on a pass that
    calls it, the exception leaves the loop and the commit task ends with
    it; [_current_offset] was set to the offset before the call; and
    whatever is acknowledged afterwards, the backend is never called
    again. *)
Theorem C5_failed_commit_ends_loop s (o : Z) (e : exn)
    (sched : list step) :
  commit_task s = Looping ->
  _new_offset (consumer s) = Ok o ->
  _should_commit (consumer s) o = true ->
  commit_task (sys_step cast loads s (Tick (Raise e)))
    = Ended e
  /\ trace (sys_step cast loads s (Tick (Raise e)))
     = trace s ++ [BackendCommit o]
  /\ _current_offset
       (consumer
          (sys_step cast loads s (Tick (Raise e))))
     = Some o
  /\ commit_task
       (run cast loads
          (sys_step cast loads s (Tick (Raise e))) sched)
     = Ended e
  /\ commits
       (trace
          (run cast loads
             (sys_step cast loads s (Tick (Raise e))) sched))
     = commits (trace s) ++ [o].
Proof.
  intros Htask Hn Hs.
  assert (Hstep : sys_step cast loads s (Tick (Raise e))
                  = {| consumer :=
                         set_current_offset (consumer s) (Some o);
                       commit_task := Ended e;
                       trace :=
                         trace s ++ [BackendCommit o] |}).
  { unfold sys_step. by rewrite Htask, (tick_commit _ _ _ Hn Hs). }
  rewrite Hstep.
  destruct (run_ended cast loads
              {| consumer :=
                   set_current_offset (consumer s) (Some o);
                 commit_task := Ended e;
                 trace :=
                   trace s ++ [BackendCommit o] |}
              e sched eq_refl) as (Hended & Htrace & _).
  simpl in *. rewrite commits_app in Htrace. repeat split; assumption.
Qed.

End Commits.

Lemma C4_witness :
  StronglySorted Z.lt
    (commits
       (trace
          (run Demo.cast Demo.loads (start (Demo.demo_consumer None None))
             [Acked (Demo.acked_ref 1); Acked (Demo.acked_ref 2);
              Tick (Ok tt)])))
  /\ _current_offset
       (consumer
          (run Demo.cast Demo.loads (start (Demo.demo_consumer None None))
             [Acked (Demo.acked_ref 1); Acked (Demo.acked_ref 2);
              Tick (Ok tt)]))
     = Some 1.
Proof.
  destruct (C4_commit_offsets_strictly_increase Demo.cast Demo.loads 0 1
              Demo.demo_transport
              (Some Demo.demo_topic) (Some Demo.demo_callback) None None None []
              (Demo.demo_consumer None None)
              [Acked (Demo.acked_ref 1); Acked (Demo.acked_ref 2);
               Tick (Ok tt)] eq_refl) as (Hsorted & _ & _).
  split; [exact Hsorted|reflexivity].
Defined.

(** C5 as the specification states it fails: offsets 5 and 6 are
    acknowledged, the loop wakes up and the backend's commit raises.  The
    commit task has ended with that exception; and after a further message,
    a further acknowledgement and two more wake-ups, with a backend that
    would now answer, the only commit ever attempted is the failed one. *)
Lemma C5_counterexample :
  commit_task
    (run Demo.cast Demo.loads
       (start (Demo.demo_consumer None None))
       [Acked (Demo.acked_ref 5); Acked (Demo.acked_ref 6);
        Tick (Raise (OtherError "CommitFailedError"))])
  = Ended (OtherError "CommitFailedError")
  /\ commits
       (trace
          (run Demo.cast Demo.loads
             (start (Demo.demo_consumer None None))
             [Acked (Demo.acked_ref 5); Acked (Demo.acked_ref 6);
              Tick (Raise (OtherError "CommitFailedError"));
              Received Demo.good_message;
              Acked (Demo.acked_ref 7);
              Tick (Ok tt); Tick (Ok tt)]))
     = [5].
Proof. split; reflexivity. Qed.

Lemma C5_witness :
  commit_task
    (sys_step Demo.cast Demo.loads
       (run Demo.cast Demo.loads (start (Demo.demo_consumer None None))
          [Acked (Demo.acked_ref 5); Acked (Demo.acked_ref 6)])
       (Tick (Raise (OtherError "CommitFailedError"))))
  = Ended (OtherError "CommitFailedError").
Proof.
  apply (C5_failed_commit_ends_loop Demo.cast Demo.loads
           (run Demo.cast Demo.loads (start (Demo.demo_consumer None None))
              [Acked (Demo.acked_ref 5); Acked (Demo.acked_ref 6)])
           5 (OtherError "CommitFailedError") []); reflexivity.
Defined.

Lemma C6_witness :
  on_message Demo.cast Demo.loads
    (Demo.demo_consumer (Some Demo.demo_handler) None) Demo.bad_key
  = (Demo.demo_consumer (Some Demo.demo_handler) None,
     [CallKeyDecodeError
        (KeyDecodeError (OtherError "JSONDecodeError")) Demo.bad_key],
     Raise UnboundLocalError).
Proof.
  apply (C6_handled_key_error_raises_UnboundLocalError Demo.cast Demo.loads
           (Demo.demo_consumer (Some Demo.demo_handler) None) Demo.bad_key
           "json" (OtherError "JSONDecodeError") Demo.demo_handler);
    [reflexivity|discriminate|reflexivity|reflexivity|reflexivity].
Defined.

(** The other paths of [on_message] on the concrete consumer: a message
    that decodes is tracked under its offset and handed to the callback; a
    value that does not decode, with no handler, raises [ValueDecodeError]
    and reaches neither the tracker nor the callback. *)
Example on_message_good :
  on_message Demo.cast Demo.loads (Demo.demo_consumer None None)
    Demo.good_message
  = (track_event (Demo.demo_consumer None None) 1 9,
     [CallCallback Demo.demo_topic "a"%string 1], Ok tt).
Proof. reflexivity. Qed.

Example on_message_bad_value :
  on_message Demo.cast Demo.loads (Demo.demo_consumer None None)
    Demo.bad_value
  = (Demo.demo_consumer None None, [],
     Raise (ValueDecodeError (OtherError "JSONDecodeError"))).
Proof. reflexivity. Qed.

(** * Construction *)

Section Construction.
Context {K V : Type}.

(** C7: without a callback the constructor fails on its first line, the
    [assert]; with a callback and a topic that gives both [topics] and a
    [pattern] it raises [TypeError].  These two are what the
    specification calls [ConfigurationError].  In both cases nothing
    outside the constructor is called: no callback and no backend
    operation; the second failure has taken an id from the counter. *)
Theorem C7_construction_fails (ids : nat) (t : TransportT)
    (topic : option (Topic (K:=K) (V:=V)))
    (tp : Topic (K:=K) (V:=V))
    (cb : ConsumerCallback)
    (hk : option KeyDecodeErrorCallback)
    (hv : option ValueDecodeErrorCallback)
    (ci : option Q) :
  topic_topics tp <> [] ->
  topic_pattern tp <> None ->
  __init__ ids t topic None hk hv ci = (ids, [], Raise AssertionError)
  /\ __init__ ids t (Some tp) (Some cb) hk hv ci
     = (S ids, [], Raise TypeError)
  /\ create_consumer ids t tp cb hk hv ci
     = (S ids, [], Raise TypeError).
Proof.
  intros Htopics Hpattern. split; [reflexivity|].
  assert (Hboth : truthy_seq (topic_topics tp)
                  && truthy_opt (topic_pattern tp) = true).
  { destruct (topic_topics tp); [done|].
    destruct (topic_pattern tp); [reflexivity|done]. }
  unfold create_consumer, __init__.
  by rewrite Hboth.
Qed.

End Construction.

Lemma C7_witness :
  __init__ 0 Demo.demo_transport (Some Demo.both_topic) None None None None
    = (0%nat, [], Raise AssertionError)
  /\ __init__ 0 Demo.demo_transport (Some Demo.both_topic)
       (Some Demo.demo_callback) None None None
     = (1%nat, [], Raise TypeError)
  /\ create_consumer 0 Demo.demo_transport Demo.both_topic
       Demo.demo_callback None None None
     = (1%nat, [], Raise TypeError).
Proof.
  apply (C7_construction_fails 0 Demo.demo_transport (Some Demo.both_topic)
           Demo.both_topic Demo.demo_callback None None None); discriminate.
Defined.

(** * Tables *)

Section TableFacts.
Context `{Countable K} {V Coro : Type}.
Implicit Types (t u : Tables.Table K V Coro).
Implicit Types (k : K).

Lemma __getitem___missing t k :
  Tables.__getitem__ t k = Raise KeyError <-> Tables._state t !! k = None.
Proof.
  unfold Tables.__getitem__. destruct (Tables._state t !! k); split; congruence.
Qed.

Lemma __delitem___missing t k :
  Tables.__delitem__ t k = Raise KeyError <-> Tables._state t !! k = None.
Proof.
  unfold Tables.__delitem__. destruct (Tables._state t !! k); split; congruence.
Qed.

Lemma on_message_state t (topic : Topic) k (v p : V) :
  Tables.process (Tables.stream t) k v = Ok p ->
  Tables.on_message t topic k v
  = Ok (Tables.set_state t (<[k := p]> (Tables._state t))).
Proof. intros Hp. unfold Tables.on_message. by rewrite Hp. Qed.

Lemma on_message_process_raises t (topic : Topic) k (v : V) (e : exn) :
  Tables.process (Tables.stream t) k v = Raise e ->
  Tables.on_message t topic k v = Raise e.
Proof. intros Hp. unfold Tables.on_message. by rewrite Hp. Qed.

(** C8: a message for [k] whose processed value is [p] (the value itself
    when [process] is the identity), received after an explicit
    [table[k] = v1], leaves [p] under [k] and every other key as it was;
    [table[k]] then returns [p]; after [del table[k]] both [table[k]] and
    a second [del table[k]] raise [KeyError].  For every table, a message
    stores what [process] returned under its key and changes nothing
    else in the store, and reading or deleting a key that is not there
    raises [KeyError]. *)
Theorem C8_message_overwrites_and_missing_key t (topic : Topic)
    k (v1 v2 p : V) :
  Tables.process (Tables.stream t) k v2 = Ok p ->
  (exists t' t'',
      Tables.on_message (Tables.__setitem__ t k v1) topic k v2 = Ok t'
      /\ Tables.__getitem__ t' k = Ok p
      /\ (forall k', k' <> k -> Tables._state t' !! k' = Tables._state t !! k')
      /\ Tables.__delitem__ t' k = Ok t''
      /\ Tables.__getitem__ t'' k = Raise KeyError
      /\ Tables.__delitem__ t'' k = Raise KeyError)
  /\ (forall u k0 (v p0 : V),
        Tables.process (Tables.stream u) k0 v = Ok p0 ->
        Tables.on_message u topic k0 v
        = Ok (Tables.set_state u (<[k0 := p0]> (Tables._state u))))
  /\ (forall u k0,
        Tables._state u !! k0 = None ->
        Tables.__getitem__ u k0 = Raise KeyError
        /\ Tables.__delitem__ u k0 = Raise KeyError).
Proof.
  intros Hp. split; [|split].
  - exists (Tables.set_state (Tables.__setitem__ t k v1)
              (<[k := p]> (Tables._state (Tables.__setitem__ t k v1)))).
    exists (Tables.set_state t (delete k (Tables._state t))).
    split; [by apply on_message_state|].
    unfold Tables.__getitem__, Tables.__delitem__. simpl.
    rewrite !lookup_insert_eq. split; [reflexivity|]. split.
    + intros k' Hne. by rewrite !lookup_insert_ne.
    + rewrite !delete_insert_eq. split; [reflexivity|].
      by rewrite lookup_delete_eq.
  - intros u k0 v p0. apply on_message_state.
  - intros u k0 Hnone. split.
    + by apply __getitem___missing.
    + by apply __delitem___missing.
Qed.

(** C9: [on_init] refuses a stream that has generator callbacks
    registered ([assert not self._coroutines], the failure the
    specification calls [ConfigurationError]) and accepts every other
    stream, starting it with an empty store. *)
Theorem C9_on_init_rejects_coroutines (s : Tables.Stream K V Coro) :
  (Tables.on_init s = Raise AssertionError <-> Tables._coroutines s <> [])
  /\ (Tables.on_init s = Ok {| Tables.stream := s; Tables._state := ∅ |}
      <-> Tables._coroutines s = []).
Proof.
  unfold Tables.on_init. destruct (Tables._coroutines s); simpl.
  - split; split; congruence.
  - split; split; congruence.
Qed.

End TableFacts.

Lemma C8_witness :
  exists t' t'',
    Tables.on_message
      (Tables.__setitem__
         {| Tables.stream := Demo.identity_stream; Tables._state := ∅ |}
         "a"%string 1)
      Demo.demo_topic "a"%string 2 = Ok t'
    /\ Tables.__getitem__ t' "a"%string = Ok 2
    /\ Tables.__delitem__ t' "a"%string = Ok t''
    /\ Tables.__getitem__ t'' "a"%string = Raise KeyError.
Proof.
  destruct (C8_message_overwrites_and_missing_key
              {| Tables.stream := Demo.identity_stream; Tables._state := ∅ |}
              Demo.demo_topic "a"%string 1 2 2 eq_refl)
    as ((t' & t'' & Hmsg & Hget & _ & Hdel & Hgone & _) & _).
  exists t', t''. repeat split; assumption.
Defined.

(** The specification's example run from [on_init] on: [table["a"] = 1],
    then the message [("a", 2)], then [table["a"]]; and the same followed
    by [del table["a"]] and [table["a"]]. *)
Example table_example :
  (t0 ← Tables.on_init Demo.identity_stream;
   t1 ← Tables.on_message (Tables.__setitem__ t0 "a"%string 1)
          Demo.demo_topic "a"%string 2;
   Tables.__getitem__ t1 "a"%string) = Ok 2
  /\ (t0 ← Tables.on_init Demo.identity_stream;
      t1 ← Tables.on_message (Tables.__setitem__ t0 "a"%string 1)
             Demo.demo_topic "a"%string 2;
      t2 ← Tables.__delitem__ t1 "a"%string;
      Tables.__getitem__ t2 "a"%string) = Raise KeyError.
Proof. split; vm_compute; reflexivity. Qed.

(** * More about the receive path *)

Section ReceiveMore.
Context {K V : Type}.
Variable cast : bytes -> K.
Variable loads : string -> bytes -> result K.
Implicit Types (c : Consumer (K:=K) (V:=V)).
Implicit Types (message : Message).

(** X1: [to_KV] raises [KeyDecodeError] exactly when a non-empty key
    serializer is configured and the codec rejects the key; the error
    wraps what the codec raised.  A failure of the value decoder is never
    reported as a key error. *)
Theorem X1_to_KV_key_error_iff c message (cause : exn) :
  to_KV cast loads c message = Raise (KeyDecodeError cause)
  <-> exists ser, _key_serializer c = Some ser /\ ser <> ""%string
                  /\ loads ser (msg_key message) = Raise cause.
Proof.
  split.
  - unfold to_KV, mbind, result_bind. intros Hr.
    destruct (_key_serializer c) as [ser|]; simpl in Hr.
    + destruct (String.eqb ser "") eqn:Hne; simpl in Hr.
      * by destruct (from_message _ _ _ _ _).
      * apply String.eqb_neq in Hne.
        destruct (loads ser (msg_key message)) as [k|e] eqn:Hl.
        -- by destruct (from_message _ _ _ _ _).
        -- exists ser. by simplify_eq.
    + by destruct (from_message _ _ _ _ _).
  - intros (ser & Hser & Hne & Hl). by eapply to_KV_key_error.
Qed.

(** X2: without a key serializer ([None] or the empty string) the codec is
    not consulted: whatever [loads] would do, [to_KV] gives the same
    result, a key it returns is the raw key of the message, and it never
    raises [KeyDecodeError]. *)
Theorem X2_to_KV_without_key_serializer c message :
  truthy_str (_key_serializer c) = false ->
  (forall loads' : string -> bytes -> result K,
      to_KV cast loads' c message = to_KV cast loads c message)
  /\ (forall k v, to_KV cast loads c message = Ok (k, v)
                  -> k = cast (msg_key message))
  /\ (forall cause, to_KV cast loads c message <> Raise (KeyDecodeError cause)).
Proof.
  intros Hfalsy.
  assert (Hraw : forall loads' : string -> bytes -> result K,
            to_KV cast loads' c message
            = match from_message (type c) (cast (msg_key message)) message
                      (_app c) (_value_serializer c) with
              | Ok v => Ok (cast (msg_key message), v)
              | Raise exc => Raise (ValueDecodeError exc)
              end).
  { intros loads'. unfold to_KV.
    destruct (_key_serializer c) as [ser|]; [|reflexivity].
    by rewrite Hfalsy. }
  split; [|split].
  - intros loads'. by rewrite !Hraw.
  - intros k v. rewrite Hraw.
    destruct (from_message _ _ _ _ _); intros ?; by simplify_eq.
  - intros cause. rewrite Hraw. by destruct (from_message _ _ _ _ _).
Qed.

(** X3: [on_message] never calls the backend, and it goes one of two ways.
    Either the message decodes: the event is tracked under the message's
    offset, the callback is awaited once with the topic, the key and the
    value, and its outcome (an exception included) is the outcome of
    [on_message].  Or decoding fails: the consumer is left as it was, the
    callback is not awaited, at most one call (a handler's) is made, and
    [on_message] raises. *)
Theorem X3_on_message_decodes_or_raises c message :
  commits (on_message cast loads c message).1.2 = []
  /\ ((exists k v,
         to_KV cast loads c message = Ok (k, v)
         /\ on_message cast loads c message
            = (track_event c v (msg_offset message),
               [CallCallback (topic c) k v],
               callback c (topic c) k v))
      \/ (exists e e' tr,
            to_KV cast loads c message = Raise e
            /\ on_message cast loads c message = (c, tr, Raise e')
            /\ (forall t k v, CallCallback t k v ∉ tr)
            /\ (length tr <= 1)%nat)).
Proof.
  split; [apply on_message_frame|].
  destruct (to_KV cast loads c message) as [[k v]|e] eqn:Hkv.
  - left. exists k, v. split; [reflexivity|]. by apply on_message_decoded.
  - right. exists e.
    destruct (to_KV_raises _ _ _ _ _ Hkv) as (cause & [->| ->]);
      unfold on_message, on_message_try; rewrite Hkv.
    + destruct (on_key_decode_error c) as [h|].
      * destruct (h (KeyDecodeError cause) message) as [[]|e'].
        -- exists UnboundLocalError, [CallKeyDecodeError (KeyDecodeError cause) message].
           repeat split; [|simpl; lia].
           intros t k v Hin. apply list_elem_of_singleton in Hin. discriminate.
        -- exists e', [CallKeyDecodeError (KeyDecodeError cause) message].
           repeat split; [|simpl; lia].
           intros t k v Hin. apply list_elem_of_singleton in Hin. discriminate.
      * exists (KeyDecodeError cause), []. repeat split; [|simpl; lia].
        intros t k v Hin. by apply elem_of_nil in Hin.
    + destruct (on_value_decode_error c) as [h|].
      * destruct (h (ValueDecodeError cause) message) as [[]|e'].
        -- exists UnboundLocalError,
             [CallValueDecodeError (ValueDecodeError cause) message].
           repeat split; [|simpl; lia].
           intros t k v Hin. apply list_elem_of_singleton in Hin. discriminate.
        -- exists e', [CallValueDecodeError (ValueDecodeError cause) message].
           repeat split; [|simpl; lia].
           intros t k v Hin. apply list_elem_of_singleton in Hin. discriminate.
      * exists (ValueDecodeError cause), []. repeat split; [|simpl; lia].
        intros t k v Hin. by apply elem_of_nil in Hin.
Qed.

End ReceiveMore.

Lemma X2_witness :
  (forall loads' : string -> bytes -> result string,
      to_KV Demo.cast loads' Raw.raw_consumer Demo.good_message
      = to_KV Demo.cast Demo.loads Raw.raw_consumer Demo.good_message)
  /\ to_KV Demo.cast Demo.loads Raw.raw_consumer Demo.good_message
     = Ok ("a"%string, 1).
Proof.
  destruct (X2_to_KV_without_key_serializer Demo.cast Demo.loads
              Raw.raw_consumer Demo.good_message eq_refl) as (Hsame & _ & _).
  split; [exact Hsame|reflexivity].
Defined.

(** * More about the acknowledged offsets *)

(** On an ascending list the scan returns [o] exactly when [o] is the
    least entry and some entry differs from it. *)
Lemma _new_offset_loop_sorted_Ok (acked : list Z) (o : Z) :
  StronglySorted Z.le acked ->
  _new_offset_loop acked 0 acked = Ok o
  <-> o ∈ acked /\ (forall x, x ∈ acked -> o <= x)
      /\ exists x, x ∈ acked /\ x <> o.
Proof.
  intros Hs. rewrite (_new_offset_loop_sorted _ Hs).
  destruct acked as [|a0 t].
  - split; [done|]. intros (Hin & _). by apply elem_of_nil in Hin.
  - destruct (last (a0 :: t)) as [z|] eqn:Hlast; [|by apply last_None in Hlast].
    assert (Hz : z ∈ a0 :: t).
    { rewrite last_lookup in Hlast. by eapply list_elem_of_lookup_2. }
    destruct (Z.eqb_spec a0 z) as [->|Hne].
    + split; [done|]. intros (Ho & _ & x & Hx & Hxo). exfalso.
      pose proof (sorted_first_le _ _ _ Hs Hx).
      pose proof (sorted_le_last _ _ _ Hs Hlast Hx).
      pose proof (sorted_first_le _ _ _ Hs Ho).
      pose proof (sorted_le_last _ _ _ Hs Hlast Ho).
      lia.
    + split.
      * intros ?. simplify_eq. split; [by left|]. split.
        -- intros x Hx. exact (sorted_first_le _ _ _ Hs Hx).
        -- exists z. split; [exact Hz|congruence].
      * intros (Ho & Hmin & _). f_equal. apply Z.le_antisymm.
        -- exact (sorted_first_le _ _ _ Hs Ho).
        -- apply Hmin. by left.
Qed.

Section AcknowledgedMore.
Context {K V : Type}.
Implicit Types (c base : Consumer (K:=K) (V:=V)).
Implicit Types (ref : EventRef (V:=V)).
Implicit Types (refs : list (EventRef (V:=V))).

Lemma acknowledge_Permutation c refs :
  _acked (acknowledge c refs) ≡ₚ _acked c ++ map ref_offset refs.
Proof.
  induction refs as [|ref refs IH] using rev_ind.
  - simpl. by rewrite app_nil_r.
  - rewrite acknowledge_snoc, on_event_ready_acked, py_sort_Permutation, IH.
    by rewrite map_app, app_assoc.
Qed.

(** X4: the acknowledged list holds every acknowledged offset, as often as
    it was acknowledged, and it does not depend on the order in which the
    events went out of scope: two orders of the same acknowledgements
    leave the same list. *)
Theorem X4_acked_order_independent base refs1 refs2 :
  refs1 ≡ₚ refs2 ->
  _acked (acknowledge (set_acked base []) refs1)
  = _acked (acknowledge (set_acked base []) refs2)
  /\ _acked (acknowledge (set_acked base []) refs1) ≡ₚ map ref_offset refs1.
Proof.
  intros Hperm. split; [|by rewrite acknowledge_Permutation].
  apply (StronglySorted_unique_strong Z.le).
  - intros x1 x2 _ _ ? ?. lia.
  - apply acknowledge_sorted. simpl. constructor.
  - apply acknowledge_sorted. simpl. constructor.
  - rewrite !acknowledge_Permutation. simpl.
    by apply Permutation_map.
Qed.

(** X5: what [_new_offset] returns, in terms of what was acknowledged: it
    returns [o] exactly when [o] is the least acknowledged offset and some
    other offset was acknowledged as well; in every other case it raises
    [IndexError]. *)
Theorem X5_new_offset_is_least_of_several base refs (o : Z) :
  (_new_offset (acknowledge (set_acked base []) refs) = Ok o
   <-> o ∈ map ref_offset refs
       /\ (forall x, x ∈ map ref_offset refs -> o <= x)
       /\ exists x, x ∈ map ref_offset refs /\ x <> o)
  /\ (forall e, _new_offset (acknowledge (set_acked base []) refs) = Raise e
                -> e = IndexError).
Proof.
  split; [|intros e; apply _new_offset_only_IndexError].
  assert (Hmem : forall x,
            x ∈ _acked (acknowledge (set_acked base []) refs)
            <-> x ∈ map ref_offset refs).
  { intros x. rewrite acknowledge_elem_of. simpl. rewrite elem_of_nil. tauto. }
  unfold _new_offset. rewrite _new_offset_loop_sorted_Ok
    by (apply acknowledge_sorted; simpl; constructor).
  rewrite Hmem. split.
  - intros (Ho & Hmin & x & Hx & Hne). split; [exact Ho|]. split.
    + intros y Hy. apply Hmin. by apply Hmem.
    + exists x. split; [by apply Hmem|exact Hne].
  - intros (Ho & Hmin & x & Hx & Hne). split; [exact Ho|]. split.
    + intros y Hy. apply Hmin. by apply Hmem.
    + exists x. split; [by apply Hmem|exact Hne].
Qed.

End AcknowledgedMore.

Lemma X4_witness :
  _acked (acknowledge (set_acked (Demo.demo_consumer None None) [])
            [Demo.acked_ref 8; Demo.acked_ref 5; Demo.acked_ref 6])
  = _acked (acknowledge (set_acked (Demo.demo_consumer None None) [])
              [Demo.acked_ref 5; Demo.acked_ref 6; Demo.acked_ref 8]).
Proof.
  apply (X4_acked_order_independent (Demo.demo_consumer None None)
           [Demo.acked_ref 8; Demo.acked_ref 5; Demo.acked_ref 6]
           [Demo.acked_ref 5; Demo.acked_ref 6; Demo.acked_ref 8]).
  apply Permutation_cons_append.
Defined.

(** * More about the commit loop *)

Section CommitLoopMore.
Context {K V : Type}.
Variable cast : bytes -> K.
Variable loads : string -> bytes -> result K.
Implicit Types (c : Consumer (K:=K) (V:=V)).
Implicit Types (s : System (K:=K) (V:=V)).

(** The acknowledged list is ascending, and either nothing was committed,
    or one offset was, which [_current_offset] holds and which is among
    the acknowledged ones. *)
Definition committed_once s : Prop :=
  StronglySorted Z.le (_acked (consumer s))
  /\ ((commits (trace s) = [] /\ _current_offset (consumer s) = None)
      \/ exists o, commits (trace s) = [o]
                   /\ _current_offset (consumer s) = Some o
                   /\ o ∈ _acked (consumer s)).

Lemma committed_once_step s (st : step) :
  committed_once s -> committed_once (sys_step cast loads s st).
Proof.
  intros (Hsorted & Hlog). destruct st as [message|ref|backend].
  - destruct (sys_step_received cast loads s message) as (Ha & Hc & Ht & _).
    unfold committed_once. by rewrite Ha, Hc, Ht.
  - split; [apply on_event_ready_sorted|]. simpl.
    destruct Hlog as [?|(o & ? & ? & Ho)]; [by left|].
    right. exists o. split; [done|]. split; [done|].
    apply on_event_ready_elem_of. by left.
  - unfold sys_step.
    destruct (commit_task s) eqn:Htask; [|by split].
    destruct (tick_cases (consumer s) backend)
      as [[_ ->]|[(o' & _ & _ & ->)|(o' & Hn & Hs & ->)]].
    + unfold committed_once. simpl. by rewrite app_nil_r.
    + unfold committed_once. simpl. by rewrite app_nil_r.
    + unfold _new_offset in Hn.
      apply (_new_offset_loop_sorted_Ok _ _ Hsorted) in Hn as (Ho' & Hmin & _).
      unfold committed_once. simpl. split; [exact Hsorted|].
      rewrite commits_app. simpl.
      destruct Hlog as [[Hnil _]|(o & _ & Hcur & Ho)].
      * right. exists o'. by rewrite Hnil.
      * exfalso.
        apply _should_commit_true in Hs as [Hnone|(cur & Hsome & _ & Hlt)];
          [congruence|].
        pose proof (Hmin o Ho). rewrite Hcur in Hsome. simplify_eq. lia.
Qed.

Lemma committed_once_run (sched : list step) s :
  committed_once s -> committed_once (run cast loads s sched).
Proof.
  revert s. induction sched as [|st sched IH]; intros s Hs; [exact Hs|].
  simpl. apply IH. by apply committed_once_step.
Qed.

(** X6: a consumer commits at most once.  [_new_offset] returns the least
    acknowledged offset, the acknowledged list only grows, so after the
    first commit no later pass finds an offset greater than
    [_current_offset].  The one offset committed is an acknowledged one,
    and [_current_offset] holds it from then on. *)
Theorem X6_at_most_one_commit (ids ids' : nat) (t : TransportT)
    (topic : option Topic) (callback : option ConsumerCallback)
    (hk : option KeyDecodeErrorCallback)
    (hv : option ValueDecodeErrorCallback)
    (ci : option Q) (tr : list effect) c (sched : list step) :
  __init__ ids t topic callback hk hv ci = (ids', tr, Ok c) ->
  (length (commits (trace (run cast loads (start c) sched))) <= 1)%nat
  /\ (forall o,
        o ∈ commits (trace (run cast loads (start c) sched)) ->
        o ∈ _acked (consumer (run cast loads (start c) sched))
        /\ _current_offset (consumer (run cast loads (start c) sched))
           = Some o).
Proof.
  intros Hinit. destruct (__init___fresh _ _ _ _ _ _ _ _ _ _ Hinit)
    as (Hacked & Hcur & _ & _).
  destruct (committed_once_run sched (start c)) as (_ & Hlog).
  { split; simpl; [rewrite Hacked; constructor|by left]. }
  destruct Hlog as [[-> _]|(o & -> & Hc & Ho)].
  - split; [simpl; lia|]. intros o Hin. by apply elem_of_nil in Hin.
  - split; [simpl; lia|]. intros o' Hin.
    apply list_elem_of_singleton in Hin as ->. by split.
Qed.

(** As long as every acknowledgement names the same offset, every entry of
    the list is that offset and nothing is committed. *)
Lemma single_offset_run (a : Z) (sched : list step) s :
  (forall ref, Acked ref ∈ sched -> ref_offset ref = a) ->
  (forall x, x ∈ _acked (consumer s) -> x = a) ->
  commits (trace s) = [] ->
  commits (trace (run cast loads s sched)) = [].
Proof.
  revert s. induction sched as [|st sched IH]; intros s Hsched Hall Hlog;
    [exact Hlog|].
  simpl. apply IH.
  - intros ref Hin. apply Hsched. by right.
  - destruct st as [message|ref|backend].
    + destruct (sys_step_received cast loads s message) as (-> & _).
      exact Hall.
    + intros x Hx. simpl in Hx.
      apply on_event_ready_elem_of in Hx as [Hx| ->]; [by apply Hall|].
      apply Hsched. by left.
    + unfold sys_step. destruct (commit_task s); [|exact Hall].
      destruct (tick_cases (consumer s) backend)
        as [[_ ->]|[(o' & _ & _ & ->)|(o' & _ & _ & ->)]]; exact Hall.
  - destruct st as [message|ref|backend].
    + destruct (sys_step_received cast loads s message) as (_ & _ & -> & _).
      exact Hlog.
    + exact Hlog.
    + unfold sys_step. destruct (commit_task s); [|exact Hlog].
      destruct (tick_cases (consumer s) backend)
        as [[_ ->]|[(o' & _ & _ & ->)|(o' & Hn & _ & _)]].
      * simpl. by rewrite app_nil_r.
      * simpl. by rewrite app_nil_r.
      * exfalso. unfold _new_offset in Hn.
        pose proof (_new_offset_loop_all_equal _ a Hall _ 0%nat eq_refl)
          as Hraise.
        change (_new_offset_loop (_acked (consumer s)) 0 (_acked (consumer s))
                = Raise IndexError) in Hraise.
        congruence.
Qed.

(** X7: a consumer whose acknowledgements all name one and the same
    offset, however many there are, never commits: [_new_offset] needs two
    different offsets before it returns one. *)
Theorem X7_single_offset_never_committed (ids ids' : nat) (t : TransportT)
    (topic : option Topic) (callback : option ConsumerCallback)
    (hk : option KeyDecodeErrorCallback)
    (hv : option ValueDecodeErrorCallback)
    (ci : option Q) (tr : list effect) c (sched : list step) (a : Z) :
  __init__ ids t topic callback hk hv ci = (ids', tr, Ok c) ->
  (forall ref, Acked ref ∈ sched -> ref_offset ref = a) ->
  commits (trace (run cast loads (start c) sched)) = [].
Proof.
  intros Hinit Hsched. destruct (__init___fresh _ _ _ _ _ _ _ _ _ _ Hinit)
    as (Hacked & _ & _ & _).
  apply (single_offset_run a); [exact Hsched| |reflexivity].
  simpl. rewrite Hacked. intros x Hx. by apply elem_of_nil in Hx.
Qed.



Lemma on_message_dirty_events c (message : Message) :
  _dirty_events (on_message cast loads c message).1.1 = _dirty_events c
  \/ exists v,
       _dirty_events (on_message cast loads c message).1.1
       = _dirty_events c
         ++ [{| ref_event := v; ref_offset := msg_offset message |}].
Proof.
  unfold on_message, on_message_try.
  repeat case_match; simplify_eq; simpl; eauto.
Qed.

(** X9: the list of tracked events only grows.  Over any run it gains
    references at its end, each carrying the offset of a message received
    in that run; neither an acknowledgement nor a commit removes one. *)
Theorem X9_dirty_events_only_grow s (sched : list step) :
  exists more,
    _dirty_events (consumer (run cast loads s sched))
    = _dirty_events (consumer s) ++ more
    /\ (forall ref, ref ∈ more ->
          exists message, Received message ∈ sched
                          /\ ref_offset ref = msg_offset message).
Proof.
  revert s. induction sched as [|st sched IH]; intros s.
  - exists []. split; [by rewrite app_nil_r|].
    intros ref Hin. by apply elem_of_nil in Hin.
  - simpl. destruct (IH (sys_step cast loads s st)) as (more & Heq & Hmore).
    destruct st as [message|ref0|backend].
    + assert (Hstep : _dirty_events (consumer (sys_step cast loads s (Received message)))
                      = _dirty_events (on_message cast loads (consumer s) message).1.1).
      { unfold sys_step.
        by destruct (on_message cast loads (consumer s) message) as [[? ?] ?]. }
      destruct (on_message_dirty_events (consumer s) message) as [Hd|(v & Hd)].
      * exists more. rewrite Heq, Hstep, Hd. split; [done|].
        intros ref Hin. destruct (Hmore ref Hin) as (m & ? & ?).
        exists m. split; [by right|done].
      * exists ({| ref_event := v; ref_offset := msg_offset message |} :: more).
        rewrite Heq, Hstep, Hd, <- app_assoc. split; [done|].
        intros ref Hin. apply elem_of_cons in Hin as [->|Hin].
        -- exists message. split; [by left|done].
        -- destruct (Hmore ref Hin) as (m & ? & ?).
           exists m. split; [by right|done].
    + exists more. split; [exact Heq|].
      intros ref Hin. destruct (Hmore ref Hin) as (m & ? & ?).
      exists m. split; [by right|done].
    + exists more. split.
      * rewrite Heq. f_equal. unfold sys_step.
        destruct (commit_task s); [|done].
        by destruct (tick_cases (consumer s) backend)
          as [[_ ->]|[(o' & _ & _ & ->)|(o' & _ & _ & ->)]].
      * intros ref Hin. destruct (Hmore ref Hin) as (m & ? & ?).
        exists m. split; [by right|done].
Qed.

End CommitLoopMore.

Lemma X6_witness :
  (length
     (commits
        (trace
           (run Demo.cast Demo.loads (start (Demo.demo_consumer None None))
              [Acked (Demo.acked_ref 5); Acked (Demo.acked_ref 6);
               Tick (Ok tt); Acked (Demo.acked_ref 7);
               Acked (Demo.acked_ref 8); Tick (Ok tt)]))) <= 1)%nat
  /\ commits
       (trace
          (run Demo.cast Demo.loads (start (Demo.demo_consumer None None))
             [Acked (Demo.acked_ref 5); Acked (Demo.acked_ref 6);
              Tick (Ok tt); Acked (Demo.acked_ref 7);
              Acked (Demo.acked_ref 8); Tick (Ok tt)]))
     = [5].
Proof.
  destruct (X6_at_most_one_commit Demo.cast Demo.loads 0 1 Demo.demo_transport
              (Some Demo.demo_topic) (Some Demo.demo_callback) None None None
              [] (Demo.demo_consumer None None)
              [Acked (Demo.acked_ref 5); Acked (Demo.acked_ref 6);
               Tick (Ok tt); Acked (Demo.acked_ref 7);
               Acked (Demo.acked_ref 8); Tick (Ok tt)] eq_refl) as (Hlen & _).
  split; [exact Hlen|reflexivity].
Defined.

Lemma X7_witness :
  commits
    (trace
       (run Demo.cast Demo.loads (start (Demo.demo_consumer None None))
          [Acked (Demo.acked_ref 5); Tick (Ok tt); Acked (Demo.acked_ref 5);
           Tick (Ok tt)]))
  = [].
Proof.
  apply (X7_single_offset_never_committed Demo.cast Demo.loads 0 1
           Demo.demo_transport (Some Demo.demo_topic)
           (Some Demo.demo_callback) None None None []
           (Demo.demo_consumer None None)
           [Acked (Demo.acked_ref 5); Tick (Ok tt); Acked (Demo.acked_ref 5);
            Tick (Ok tt)] 5 eq_refl).
  intros ref Hin.
  repeat (apply elem_of_cons in Hin as [Hin|Hin];
          [by simplify_eq|]).
  by apply elem_of_nil in Hin.
Defined.


(** * More about construction *)

Section ConstructionMore.
Context {K V : Type}.

(** X10: the constructor returns a consumer exactly when it is given a
    callback and a topic that does not name both [topics] and a
    [pattern]; it then has called nothing.  Given a callback but no topic
    it raises [AttributeError] at [self.topic.type], after it has taken an
    id from the counter. *)
Theorem X10_construction_outcomes (ids : nat) (t : TransportT)
    (topic : option (Topic (K:=K) (V:=V)))
    (callback : option ConsumerCallback)
    (cb : ConsumerCallback (K:=K) (V:=V))
    (hk : option KeyDecodeErrorCallback)
    (hv : option ValueDecodeErrorCallback) (ci : option Q) :
  ((exists c, (__init__ ids t topic callback hk hv ci).2 = Ok c)
   <-> callback <> None
       /\ exists tp, topic = Some tp
                     /\ (topic_topics tp = [] \/ topic_pattern tp = None))
  /\ (__init__ ids t topic callback hk hv ci).1.2 = []
  /\ __init__ ids t None (Some cb) hk hv ci
     = (S ids, [], Raise AttributeError).
Proof.
  split; [|split; [|reflexivity]].
  - unfold __init__. destruct callback as [cb'|]; simpl.
    + destruct topic as [tp|]; simpl.
      * destruct (topic_topics tp) as [|x l] eqn:Ht;
          destruct (topic_pattern tp) as [p|] eqn:Hp; simpl.
        -- split; [|eauto]. intros _. split; [done|]. exists tp. eauto.
        -- split; [|eauto]. intros _. split; [done|]. exists tp. eauto.
        -- split; [by intros [? ?]|].
           intros (_ & tp' & ? & [?|?]); simplify_eq; congruence.
        -- split; [|eauto]. intros _. split; [done|]. exists tp. eauto.
      * split; [by intros [? ?]|]. by intros (_ & tp & ? & _).
    + split; [by intros [? ?]|]. by intros (? & _).
  - unfold __init__. destruct callback; [|reflexivity].
    destruct topic as [tp|]; [|reflexivity].
    by destruct (truthy_seq (topic_topics tp) && truthy_opt (topic_pattern tp)).
Qed.

(** X11: consumers constructed one after the other, each from the counter
    the one before left behind, get consecutive ids: the first takes the
    counter's value, the second the next one, so the two ids differ. *)
Theorem X11_consecutive_ids (ids ids1 ids2 : nat) (t1 t2 : TransportT)
    (topic1 topic2 : option (Topic (K:=K) (V:=V)))
    (callback1 callback2 : option ConsumerCallback)
    (hk1 hk2 : option KeyDecodeErrorCallback)
    (hv1 hv2 : option ValueDecodeErrorCallback) (ci1 ci2 : option Q)
    (tr1 tr2 : list effect) (c1 c2 : Consumer) :
  __init__ ids t1 topic1 callback1 hk1 hv1 ci1 = (ids1, tr1, Ok c1) ->
  __init__ ids1 t2 topic2 callback2 hk2 hv2 ci2 = (ids2, tr2, Ok c2) ->
  consumer_id c1 = ids /\ consumer_id c2 = S ids /\ ids2 = S (S ids)
  /\ consumer_id c1 <> consumer_id c2.
Proof.
  assert (Hone : forall n n' (t : TransportT)
                        (topic : option (Topic (K:=K) (V:=V)))
                        callback hk hv ci tr c,
            __init__ n t topic callback hk hv ci = (n', tr, Ok c) ->
            consumer_id c = n /\ n' = S n).
  { intros n n' t topic callback hk hv ci tr c. unfold __init__.
    destruct callback; [|discriminate]. destruct topic as [tp|]; [|discriminate].
    destruct (truthy_seq (topic_topics tp) && truthy_opt (topic_pattern tp));
      [discriminate|].
    intros ?. by simplify_eq. }
  intros H1 H2. destruct (Hone _ _ _ _ _ _ _ _ _ _ H1) as (Hid1 & ->).
  destruct (Hone _ _ _ _ _ _ _ _ _ _ H2) as (Hid2 & ->).
  rewrite Hid1, Hid2. repeat split; lia.
Qed.

End ConstructionMore.

Lemma X11_witness :
  consumer_id (Demo.demo_consumer None None) = 0%nat
  /\ consumer_id Raw.raw_consumer = 1%nat
  /\ consumer_id (Demo.demo_consumer None None) <> consumer_id Raw.raw_consumer.
Proof.
  destruct (X11_consecutive_ids 0 1 2 Demo.demo_transport Raw.raw_transport
              (Some Demo.demo_topic) (Some Demo.demo_topic)
              (Some Demo.demo_callback) (Some Demo.demo_callback)
              None None None None None None [] []
              (Demo.demo_consumer None None) Raw.raw_consumer
              eq_refl eq_refl) as (Hfirst & Hsecond & _ & Hdiffer).
  repeat split; assumption.
Defined.

(** * More about tables *)

Section TableMore.
Context `{Countable K} {V Coro : Type}.
Implicit Types (t u : Tables.Table K V Coro).
Implicit Types (k : K).

(** X12: what [table[k] = v] stores is what [table[k]] returns; reading
    any other key gives what it gave before; and a second assignment to
    the same key replaces the first. *)
Theorem X12_set_then_get t k k' (v v' : V) :
  Tables.__getitem__ (Tables.__setitem__ t k v) k' =
    (if decide (k' = k) then Ok v else Tables.__getitem__ t k')
  /\ Tables.__setitem__ (Tables.__setitem__ t k v) k v'
     = Tables.__setitem__ t k v'.
Proof.
  split.
  - unfold Tables.__getitem__, Tables.__setitem__. simpl.
    destruct (decide (k' = k)) as [->|Hne].
    + by rewrite lookup_insert_eq.
    + by rewrite lookup_insert_ne.
  - unfold Tables.__setitem__, Tables.set_state. simpl.
    by rewrite insert_insert_eq.
Qed.

(** X13: deleting a key that is present succeeds and removes that key
    only: the key is then missing, every other key reads as before.  And
    when the key was missing to begin with, storing it and deleting it
    again gives back the table one started from. *)
Theorem X13_delete_removes_one_key t k (v : V) :
  (exists t', Tables.__delitem__ (Tables.__setitem__ t k v) k = Ok t'
              /\ Tables._state t' = delete k (Tables._state t)
              /\ Tables.__getitem__ t' k = Raise KeyError
              /\ forall k', k' <> k ->
                   Tables.__getitem__ t' k' = Tables.__getitem__ t k')
  /\ (Tables._state t !! k = None ->
      Tables.__delitem__ (Tables.__setitem__ t k v) k = Ok t)
  /\ (forall w, Tables._state t !! k = Some w ->
        exists t', Tables.__delitem__ t k = Ok t'
                   /\ Tables.__getitem__ t' k = Raise KeyError
                   /\ forall k', k' <> k ->
                        Tables.__getitem__ t' k' = Tables.__getitem__ t k').
Proof.
  split; [|split].
  - exists (Tables.set_state t (delete k (Tables._state t))).
    unfold Tables.__delitem__, Tables.__setitem__, Tables.__getitem__. simpl.
    rewrite lookup_insert_eq, delete_insert_eq, lookup_delete_eq.
    repeat split. intros k' Hne. by rewrite lookup_delete_ne.
  - intros Hnone.
    unfold Tables.__delitem__, Tables.__setitem__, Tables.set_state. simpl.
    rewrite lookup_insert_eq, delete_insert_eq, delete_id by done.
    by destruct t.
  - intros w Hw. exists (Tables.set_state t (delete k (Tables._state t))).
    unfold Tables.__delitem__, Tables.__getitem__. rewrite Hw. simpl.
    rewrite lookup_delete_eq. repeat split.
    intros k' Hne. by rewrite lookup_delete_ne.
Qed.

(** Replaying messages through a processing step that never raises. *)
Lemma feed_lookup (f : K -> V -> V) (topic : Topic) (msgs : list (K * V)) t :
  (forall k v, Tables.process (Tables.stream t) k v = Ok (f k v)) ->
  exists t', feed t topic msgs = Ok t'
             /\ Tables.stream t' = Tables.stream t
             /\ forall k, Tables._state t' !! k
                          = match last_value k msgs with
                            | Some v => Some (f k v)
                            | None => Tables._state t !! k
                            end.
Proof.
  revert t. induction msgs as [|[k0 v0] msgs IH]; intros t Hf.
  - exists t. by repeat split.
  - simpl. rewrite (on_message_state t topic k0 v0 (f k0 v0)) by apply Hf.
    destruct (IH (Tables.set_state t (<[k0 := f k0 v0]> (Tables._state t))))
      as (t' & Hfeed & Hstream & Hlook); [exact Hf|].
    exists t'. split; [exact Hfeed|]. split; [exact Hstream|].
    intros k. rewrite Hlook. destruct (last_value k msgs); [reflexivity|].
    simpl. destruct (decide (k0 = k)) as [->|Hne].
    + by rewrite lookup_insert_eq.
    + by rewrite lookup_insert_ne.
Qed.

Lemma last_value_None k (msgs : list (K * V)) :
  last_value k msgs = None <-> k ∉ map fst msgs.
Proof.
  induction msgs as [|[k0 v0] msgs IH]; simpl.
  - split; [intros _; apply not_elem_of_nil|done].
  - rewrite not_elem_of_cons, <- IH.
    destruct (last_value k msgs); [split; [done|by intros [_ ?]]|].
    destruct (decide (k0 = k)) as [->|Hne].
    + split; [done|]. by intros [? _].
    + split; [|done]. intros _. split; [congruence|done].
Qed.

(** X14: replaying a changelog is last-write-wins.  When the processing
    step never raises, replaying any list of messages succeeds, and
    afterwards each key that occurs in the list holds the processed value
    of the last message that carries it, while every other key holds what
    it held before. *)
Theorem X14_replay_last_write_wins (f : K -> V -> V) (topic : Topic)
    (msgs : list (K * V)) t :
  (forall k v, Tables.process (Tables.stream t) k v = Ok (f k v)) ->
  exists t', feed t topic msgs = Ok t'
             /\ forall k, Tables.__getitem__ t' k
                          = match last_value k msgs with
                            | Some v => Ok (f k v)
                            | None => Tables.__getitem__ t k
                            end.
Proof.
  intros Hf. destruct (feed_lookup f topic msgs t Hf) as (t' & Hfeed & _ & Hlook).
  exists t'. split; [exact Hfeed|]. intros k.
  unfold Tables.__getitem__. rewrite Hlook.
  by destruct (last_value k msgs).
Qed.

(** X15: a table built by [on_init] and filled by replay knows exactly
    the keys of the messages it was given: reading a key raises [KeyError]
    if and only if no message carried that key. *)
Theorem X15_fresh_table_knows_replayed_keys (f : K -> V -> V)
    (s : Tables.Stream K V Coro) (topic : Topic) (msgs : list (K * V)) t0 :
  Tables.on_init s = Ok t0 ->
  (forall k v, Tables.process s k v = Ok (f k v)) ->
  exists t', feed t0 topic msgs = Ok t'
             /\ forall k, Tables.__getitem__ t' k = Raise KeyError
                          <-> k ∉ map fst msgs.
Proof.
  intros Hinit Hf. unfold Tables.on_init in Hinit.
  destruct (truthy_seq (Tables._coroutines s)); [discriminate|].
  simplify_eq.
  destruct (feed_lookup f topic msgs
              {| Tables.stream := s; Tables._state := ∅ |} Hf)
    as (t' & Hfeed & _ & Hlook).
  exists t'. split; [exact Hfeed|]. intros k.
  rewrite __getitem___missing, Hlook, <- last_value_None. simpl.
  rewrite lookup_empty. by destruct (last_value k msgs).
Qed.

End TableMore.

Lemma X13_witness :
  Tables.__delitem__
    (Tables.__setitem__
       {| Tables.stream := Demo.identity_stream; Tables._state := ∅ |}
       "a"%string 1) "a"%string
  = Ok {| Tables.stream := Demo.identity_stream; Tables._state := ∅ |}.
Proof.
  apply (X13_delete_removes_one_key
           {| Tables.stream := Demo.identity_stream; Tables._state := ∅ |}
           "a"%string 1).
  reflexivity.
Defined.

Lemma X14_witness :
  exists t',
    feed {| Tables.stream := Demo.identity_stream; Tables._state := ∅ |}
      Demo.demo_topic [("a"%string, 1); ("b"%string, 2); ("a"%string, 3)]
    = Ok t'
    /\ Tables.__getitem__ t' "a"%string = Ok 3
    /\ Tables.__getitem__ t' "b"%string = Ok 2
    /\ Tables.__getitem__ t' "c"%string = Raise KeyError.
Proof.
  destruct (X14_replay_last_write_wins (fun _ v => v) Demo.demo_topic
              [("a"%string, 1); ("b"%string, 2); ("a"%string, 3)]
              {| Tables.stream := Demo.identity_stream; Tables._state := ∅ |}
              (fun _ _ => eq_refl)) as (t' & Hfeed & Hget).
  exists t'. split; [exact Hfeed|].
  split; [exact (Hget "a"%string)|].
  split; [exact (Hget "b"%string)|exact (Hget "c"%string)].
Defined.

Lemma X15_witness :
  exists t',
    feed {| Tables.stream := Demo.identity_stream; Tables._state := ∅ |}
      Demo.demo_topic [("a"%string, 1)]
    = Ok t'
    /\ Tables.__getitem__ t' "b"%string = Raise KeyError.
Proof.
  destruct (X15_fresh_table_knows_replayed_keys (fun _ v => v)
              Demo.identity_stream Demo.demo_topic [("a"%string, 1)]
              {| Tables.stream := Demo.identity_stream; Tables._state := ∅ |}
              eq_refl (fun _ _ => eq_refl)) as (t' & Hfeed & Hkeys).
  exists t'. split; [exact Hfeed|].
  apply Hkeys. simpl. intros Hin. apply list_elem_of_singleton in Hin.
  discriminate.
Defined.

(** * The first commit *)

Section FirstCommit.
Context {K V : Type}.
Variable cast : bytes -> K.
Variable loads : string -> bytes -> result K.
Implicit Types (c : Consumer (K:=K) (V:=V)).
Implicit Types (s : System (K:=K) (V:=V)).
Implicit Types (refs : list (EventRef (V:=V))).

Lemma acknowledge_current_offset c refs :
  _current_offset (acknowledge c refs) = _current_offset c.
Proof.
  induction refs as [|ref refs IH] using rev_ind; [reflexivity|].
  by rewrite acknowledge_snoc, on_event_ready_current_offset.
Qed.

Lemma run_acked s refs :
  run cast loads s (map Acked refs)
  = {| consumer := acknowledge (consumer s) refs;
       commit_task := commit_task s;
       trace := trace s |}.
Proof.
  revert s. induction refs as [|ref refs IH]; intros s; [by destruct s|].
  simpl. by rewrite IH.
Qed.

(** X16: when the first commit happens.  On a consumer fresh from the
    constructor, once events have been acknowledged whose offsets are not
    all the same, the next pass of the commit loop calls the backend's
    commit with the least of them (offset 0 included) and records it in
    [_current_offset], whether or not the backend then raises. *)
Theorem X16_first_pass_commits_least (ids ids' : nat) (t : TransportT)
    (topic : option Topic) (callback : option ConsumerCallback)
    (hk : option KeyDecodeErrorCallback)
    (hv : option ValueDecodeErrorCallback)
    (ci : option Q) (tr : list effect) c refs (backend : result unit)
    (o x : Z) :
  __init__ ids t topic callback hk hv ci = (ids', tr, Ok c) ->
  o ∈ map ref_offset refs ->
  (forall y, y ∈ map ref_offset refs -> o <= y) ->
  x ∈ map ref_offset refs -> x <> o ->
  trace (run cast loads (start c) (map Acked refs ++ [Tick backend]))
    = [BackendCommit o]
  /\ _current_offset
       (consumer (run cast loads (start c) (map Acked refs ++ [Tick backend])))
     = Some o.
Proof.
  intros Hinit Ho Hmin Hx Hne.
  destruct (__init___fresh _ _ _ _ _ _ _ _ _ _ Hinit)
    as (Hacked & Hcur & _ & _).
  assert (Hmem : forall y, y ∈ _acked (acknowledge c refs)
                           <-> y ∈ map ref_offset refs).
  { intros y. rewrite acknowledge_elem_of, Hacked, elem_of_nil. tauto. }
  assert (Hn : _new_offset (acknowledge c refs) = Ok o).
  { unfold _new_offset. apply _new_offset_loop_sorted_Ok.
    - apply acknowledge_sorted. rewrite Hacked. constructor.
    - split; [by apply Hmem|]. split.
      + intros y Hy. apply Hmin. by apply Hmem.
      + exists x. split; [by apply Hmem|exact Hne]. }
  assert (Hs : _should_commit (acknowledge c refs) o = true).
  { apply _should_commit_true. left.
    by rewrite acknowledge_current_offset. }
  unfold run. rewrite fold_left_app. fold (run cast loads (start c) (map Acked refs)).
  rewrite run_acked. simpl.
  by rewrite (tick_commit _ backend _ Hn Hs).
Qed.

End FirstCommit.

Lemma X16_witness :
  trace
    (run Demo.cast Demo.loads (start (Demo.demo_consumer None None))
       (map Acked [Demo.acked_ref 2; Demo.acked_ref 0; Demo.acked_ref 1]
        ++ [Tick (Ok tt)]))
  = [BackendCommit 0].
Proof.
  apply (X16_first_pass_commits_least Demo.cast Demo.loads 0 1
           Demo.demo_transport (Some Demo.demo_topic)
           (Some Demo.demo_callback) None None None []
           (Demo.demo_consumer None None)
           [Demo.acked_ref 2; Demo.acked_ref 0; Demo.acked_ref 1]
           (Ok tt) 0 2 eq_refl).
  - simpl. apply elem_of_cons. right. by left.
  - intros y Hy. simpl in Hy.
    repeat (apply elem_of_cons in Hy as [->|Hy]; [lia|]).
    by apply elem_of_nil in Hy.
  - simpl. by left.
  - discriminate.
Defined.
